(** * Negotiation agents: a shallow embedding of [negotiation_agent_COGNICORE.py]

    The buyer agent ([YourBuyerAgent]) and the seller agent
    ([YourSellerAgent]) are embedded with Python's numbers as they are:
    integers are unbounded ([Z]), floats are IEEE-754 binary64 (the Standard
    Library's [spec_float]), [int * float] converts the integer first and can
    raise [OverflowError], [int(x)] truncates toward zero.  The per-instance
    [_state] dictionary, the exceptions and the draws of [random.choice] are
    threaded through a small state-and-exception monad. *)

From Stdlib Require Import ZArith Lia List Bool String Ascii.
From Stdlib Require Import Floats DecimalString.
Import ListNotations.

Set Warnings "-inexact-float".

Open Scope Z_scope.

(** ** Exceptions and results *)

Inductive exn : Set :=
| OverflowError
| ValueError
| ZeroDivisionError
| IndexError
| AttributeError.

Inductive result (A : Type) : Type :=
| Ok (a : A)
| Raise (e : exn).

Arguments Ok {A} a.
Arguments Raise {A} e.

Definition bindR {A B : Type} (r : result A) (k : A -> result B) : result B :=
  match r with
  | Ok a => k a
  | Raise e => Raise e
  end.

Declare Scope res_scope.
Delimit Scope res_scope with res.
Notation "x <- c ;; k" := (bindR c (fun x => k))
  (at level 61, c at next level, right associativity) : res_scope.

(** ** Python numbers

    A Python float is an IEEE-754 binary64 number: the Standard Library's
    [spec_float] with its operations at precision 53 ([SF64mul] and the
    like), which are what the hardware computes.  A float literal of the
    source is written as it is there and decoded by [Prim2SF]. *)

Coercion Prim2SF : float >-> spec_float.
Bind Scope float_scope with spec_float.

Module Py.

Definition fadd (x y : spec_float) : spec_float := SF64add x y.
Definition fsub (x y : spec_float) : spec_float := SF64sub x y.
Definition fmul (x y : spec_float) : spec_float := SF64mul x y.
Definition fdiv (x y : spec_float) : spec_float := SF64div x y.
Definition flt (x y : spec_float) : bool := SFltb x y.
Definition feq (x y : spec_float) : bool := SFeqb x y.

(** [float(z)] as [int * float] performs it: round to nearest even,
    [OverflowError] when the integer is beyond the doubles. *)
Definition float_of_int (z : Z) : result spec_float :=
  match binary_normalize prec emax z 0 false with
  | S754_infinity _ => Raise OverflowError
  | x => Ok x
  end.

(** [int(x)] of a float: truncation toward zero. *)
Definition int_of_float (x : spec_float) : result Z :=
  match x with
  | S754_zero _ => Ok 0
  | S754_finite s m e =>
      let a := if 0 <=? e then Z.shiftl (Zpos m) e else Z.shiftr (Zpos m) (- e) in
      Ok (if s then - a else a)
  | S754_infinity _ => Raise OverflowError
  | S754_nan => Raise ValueError
  end.

(** [z * c], [c * z], [z + y], [z - y] and [z / c] with [z] an integer
    and the other operand a float. *)
Definition int_mul_float (z : Z) (c : spec_float) : result spec_float :=
  (x <- float_of_int z ;; Ok (fmul x c))%res.

Definition float_mul_int (c : spec_float) (z : Z) : result spec_float :=
  (x <- float_of_int z ;; Ok (fmul c x))%res.

Definition int_add_float (z : Z) (y : spec_float) : result spec_float :=
  (x <- float_of_int z ;; Ok (fadd x y))%res.

Definition int_sub_float (z : Z) (y : spec_float) : result spec_float :=
  (x <- float_of_int z ;; Ok (fsub x y))%res.

Definition int_div_float (z : Z) (c : spec_float) : result spec_float :=
  (x <- float_of_int z ;;
   if feq c 0 then Raise ZeroDivisionError else Ok (fdiv x c))%res.

(** [a / b] on two integers: the correctly rounded quotient. *)
Definition true_div (a b : Z) : result spec_float :=
  if b =? 0 then Raise ZeroDivisionError
  else
    let negate := xorb (a <? 0) (b <? 0) in
    if a =? 0 then Ok (S754_zero negate)
    else
      let '(q, e, l) := SFdiv_core_binary prec emax (Z.abs a) 0 (Z.abs b) 0 in
      match binary_round_aux prec emax negate q e l with
      | S754_infinity _ => Raise OverflowError
      | x => Ok x
      end.

(** An integer against a float: Python compares the exact values, and
    nothing compares with a NaN. *)
Definition int_cmp_float (z : Z) (x : spec_float) : option comparison :=
  match x with
  | S754_zero _ => Some (z ?= 0)
  | S754_finite s m e =>
      let v := if s then Zneg m else Zpos m in
      Some (if 0 <=? e then z ?= Z.shiftl v e else Z.shiftl z (- e) ?= v)
  | S754_infinity s => Some (if s then Gt else Lt)
  | S754_nan => None
  end.

(** [z < x] and [z >= x]. *)
Definition int_lt_float (z : Z) (x : spec_float) : bool :=
  match int_cmp_float z x with
  | Some Lt => true
  | _ => false
  end.

Definition int_ge_float (z : Z) (x : spec_float) : bool :=
  match int_cmp_float z x with
  | Some (Gt | Eq) => true
  | _ => false
  end.

(** [int(max(a, x))] with [a] an integer and [x] a float: [max] keeps its
    first argument unless the second is strictly greater. *)
Definition int_max_int_float (a : Z) (x : spec_float) : result Z :=
  if int_lt_float a x then int_of_float x else Ok a.

(** [int(z * c)], the most common pattern of the source. *)
Definition scale (z : Z) (c : spec_float) : result Z :=
  (x <- int_mul_float z c ;; int_of_float x)%res.

End Py.


(** ** Text

    A Python [str] is a sequence of code points. *)

Definition str : Set := list N.

Definition lit (s : string) : str := map N_of_ascii (list_ascii_of_string s).

(** U+20B9, the rupee sign of the messages, and U+2019, the apostrophe of
    the seller's appeal. *)
Definition rupee : N := 8377%N.
Definition rsquo : N := 8217%N.
Definition comma : N := 44%N.

(** [str(z)], as an f-string formats an integer. *)
Definition str_of_int (z : Z) : str := lit (NilZero.string_of_int (Z.to_int z)).

Fixpoint starts_with (prefix s : str) : bool :=
  match prefix, s with
  | [], _ => true
  | _ :: _, [] => false
  | a :: prefix', b :: s' => (a =? b)%N && starts_with prefix' s'
  end.

(** [kw in t] on strings. *)
Fixpoint contains (kw t : str) : bool :=
  starts_with kw t ||
  match t with
  | [] => false
  | _ :: t' => contains kw t'
  end.

(** The longest prefix of [s] whose characters satisfy [p], and the rest. *)
Fixpoint span (p : N -> bool) (s : str) : str * str :=
  match s with
  | [] => ([], [])
  | c :: s' =>
      if p c then let '(a, b) := span p s' in (c :: a, b) else ([], s)
  end.

(** [s.replace(",", "")]. *)
Definition remove_commas (s : str) : str := filter (fun c => negb (c =? comma)%N) s.

(** ** What the interpreter provides

    The C library's [pow], Unicode lower-casing, the character classes
    [\s] and [\d] of [re], and [int()] on a string of [\d] characters are
    not code of the repository: the development is parametric in them. *)

Class Interpreter : Type := {
  fpow : spec_float -> spec_float -> spec_float;
  str_lower : str -> str;
  re_space : N -> bool;
  re_digit : N -> bool;
  int_of_str : str -> result Z
}.

(** ** [random.choice]

    The generator is an arbitrary sequence of draws and a cursor into it. *)

Record rng : Type := Rng { draws : nat -> nat; cursor : nat }.

Definition next_draw (g : rng) : nat * rng :=
  (draws g (cursor g), Rng (draws g) (S (cursor g))).

(** ** The agent object and the monad

    An agent instance either has no [_state] attribute yet or holds one. *)

Record world (S : Type) : Type := World { self_state : option S; random : rng }.

Arguments World {S} self_state random.
Arguments self_state {S} w.
Arguments random {S} w.

Definition M (S A : Type) : Type := world S -> result A * world S.

Definition ret {S A : Type} (a : A) : M S A := fun w => (Ok a, w).

Definition bind {S A B : Type} (m : M S A) (k : A -> M S B) : M S B :=
  fun w =>
    match m w with
    | (Ok a, w') => k a w'
    | (Raise e, w') => (Raise e, w')
    end.

Definition lift {S A : Type} (r : result A) : M S A := fun w => (r, w).

(** [self._state]: an [AttributeError] when the attribute is missing. *)
Definition get_state {S : Type} : M S S :=
  fun w =>
    match self_state w with
    | Some s => (Ok s, w)
    | None => (Raise AttributeError, w)
    end.

Definition modify_state {S : Type} (f : S -> S) : M S unit :=
  fun w =>
    match self_state w with
    | Some s => (Ok tt, World (Some (f s)) (random w))
    | None => (Raise AttributeError, w)
    end.

(** [random.choice(seq)]: an [IndexError] on an empty sequence. *)
Definition random_choice {S A : Type} (seq : list A) : M S A :=
  fun w =>
    let '(d, g) := next_draw (random w) in
    match nth_error seq (Nat.modulo d (List.length seq)) with
    | Some x => (Ok x, World (self_state w) g)
    | None => (Raise IndexError, w)
    end.

Declare Scope py_scope.
Delimit Scope py_scope with py.
Notation "x <- c ;; k" := (bind c (fun x => k))
  (at level 61, c at next level, right associativity) : py_scope.
Notation "c ;; k" := (bind c (fun _ => k))
  (at level 61, right associativity) : py_scope.

(** Python's truthiness of an optional integer: present and not zero. *)
Definition truthy (o : option Z) : option Z :=
  match o with
  | Some 0 => None
  | _ => o
  end.

(** [if o is not None and c(o): t(o)] followed by [e] when not taken. *)
Definition if_some {A B : Type} (o : option A) (c : A -> bool) (t : A -> B) (e : B) : B :=
  match o with
  | Some a => if c a then t a else e
  | None => e
  end.

(** ** Data structures (part 1 of the source) *)

Record Product : Type := {
  name : str;
  category : str;
  quantity : Z;
  quality_grade : str;
  origin : str;
  base_market_price : Z;
  attributes : list (str * str)
}.

Record NegotiationContext : Type := {
  product : Product;
  your_budget : Z;
  current_round : Z;
  seller_offers : list Z;
  your_offers : list Z;
  messages : list (str * str)
}.

Inductive DealStatus : Set := ONGOING | ACCEPTED | REJECTED | TIMEOUT.

(** The tones of the classifier, the two tactics drawn from them, and the
    two actors of the concession ledger. *)
Inductive Tone : Set := emotional | logical | neutral.
Inductive Tactic : Set := tactic_logical | tactic_appeal.
Inductive Actor : Set := buyer | seller.

Record Ledger : Type := { of_buyer : list Z; of_seller : list Z }.

Definition ledger_append (a : Actor) (amount : Z) (l : Ledger) : Ledger :=
  match a with
  | buyer => {| of_buyer := of_buyer l ++ [amount]; of_seller := of_seller l |}
  | seller => {| of_buyer := of_buyer l; of_seller := of_seller l ++ [amount] |}
  end.

(** [for kw in kws: if kw in t: score += delta]. *)
Definition score_keywords (kws : list str) (delta : Z) (t : str) (score : Z) : Z :=
  fold_left (fun sc kw => if contains kw t then sc + delta else sc) kws score.

Definition classify_score (score : Z) : Tone :=
  if score <=? -1 then emotional
  else if 1 <=? score then logical
  else neutral.

(** [seq\[i\]] with Python's negative indices. *)
Definition py_index {A : Type} (seq : list A) (i : Z) : result A :=
  let n := Z.of_nat (List.length seq) in
  let j := if i <? 0 then n + i else i in
  if (0 <=? j) && (j <? n) then
    match nth_error seq (Z.to_nat j) with
    | Some x => Ok x
    | None => Raise IndexError
    end
  else Raise IndexError.

(** [if not l], [len(l)]. *)
Definition is_empty {A : Type} (l : list A) : bool :=
  match l with
  | [] => true
  | _ :: _ => false
  end.

Definition len {A : Type} (l : list A) : Z := Z.of_nat (List.length l).

(** ** Price extraction shared by the regular expressions of [_extract_price]

    [re.search(r"₹\s*(\[\d,\]+)", text)]: the leftmost rupee sign that is
    followed, after any white space, by at least one digit or comma; group 1
    is the longest such run.  ([\s] and [\d] share no character, so giving
    white space back never helps the match.) *)
Section Regex.
Context {I : Interpreter}.

Fixpoint search_currency (text : str) : option str :=
  match text with
  | [] => None
  | c :: rest =>
      if (c =? rupee)%N then
        let '(_, after) := span re_space rest in
        let '(group1, _) := span (fun d => re_digit d || (d =? comma)%N) after in
        if is_empty group1 then search_currency rest else Some group1
      else search_currency rest
  end.

(** [re.search(r"(\d{5,})", text)]: the leftmost run of five or more
    digits, taken whole. *)
Fixpoint search_digits (text : str) : option str :=
  match text with
  | [] => None
  | _ :: rest =>
      let '(group1, _) := span re_digit text in
      if 5 <=? len group1 then Some group1 else search_digits rest
  end.

(** [try: return int(s) except: return None]. *)
Definition int_or_none (s : str) : option Z :=
  match int_of_str s with
  | Ok z => Some z
  | Raise _ => None
  end.

End Regex.

(** ** The buyer agent (part 3 of the source) *)

Module YourBuyerAgent.
Section Agent.
Context {I : Interpreter}.

(** Tunable hyperparameters. *)
Definition MIN_STEP : Z := 1000.
Definition AGG_OPEN_BUDGET_RATIO : spec_float := 0.78.
Definition MARKET_OPEN_RATIO : spec_float := 0.72.
Definition WALKAWAY_MARKET_RATIO : spec_float := 0.96.
Definition FAST_CONCESSION_AFTER : Z := 5.
Definition FAST_CONCESSION_MULT : spec_float := 1.5.
Definition EST_DECAY : spec_float := 0.6.
Definition MIN_SELLER_MARGIN : spec_float := 1.10.
Definition SAVINGS_THRESHOLD : spec_float := 0.10.

(** The [_state] dictionary. *)
Record AgentState : Type := {
  seller_history : list Z;
  min_seller_seen : option Z;
  seller_min_est : option Z;
  concessions : Ledger;
  last_seller_tone : Tone
}.

Definition fresh_state : AgentState :=
  {| seller_history := [];
     min_seller_seen := None;
     seller_min_est := None;
     concessions := {| of_buyer := []; of_seller := [] |};
     last_seller_tone := neutral |}.

(** [if not hasattr(self, "_state"): self._state = {...}]. *)
Definition _init_state (context : NegotiationContext) : M AgentState unit :=
  fun w =>
    match self_state w with
    | None => (Ok tt, World (Some fresh_state) (random w))
    | Some _ => (Ok tt, w)
    end.

Definition _format_professional (content : str) : M AgentState str :=
  (lead <- random_choice
     [lit "For clarity:"; lit "Let's be direct:"; lit "To be efficient:";
      lit "Straightforwardly:"] ;;
   tail <- random_choice
     [lit "Please confirm."; lit "I expect a prompt response.";
      lit "Proceed accordingly."; lit "This suits my thresholds."] ;;
   ret (lead ++ lit " " ++ content ++ lit " " ++ tail))%py.

(** Tone analysis. *)
Definition analyze_seller_tone (text : option str) : Tone :=
  match text with
  | None | Some [] => neutral
  | Some text =>
      let t := str_lower text in
      let emotional_kw :=
        [lit "angry"; lit "insult"; lit "unfair"; lit "frustrat"; lit "outrage";
         lit "hate"; lit "never"; lit "demand"; lit "disrespect"; lit "!";
         lit "how dare"] in
      let polite_indicators :=
        [lit "please"; lit "kindly"; lit "thank"; lit "appreciate"] in
      let logical_indicators :=
        [lit "market"; lit "price"; lit "cost"; lit "margin"; lit "percent";
         lit "%"; lit "data"; lit "analysis"; lit "based on"] in
      let score := 0 in
      let score := score_keywords emotional_kw (-2) t score in
      let score := score_keywords logical_indicators 1 t score in
      let score := score_keywords polite_indicators 1 t score in
      classify_score score
  end.

Definition personality_adaptation (seller_message : option str) : M AgentState Tactic :=
  (let tone := analyze_seller_tone seller_message in
   modify_state (fun st =>
     {| seller_history := seller_history st;
        min_seller_seen := min_seller_seen st;
        seller_min_est := seller_min_est st;
        concessions := concessions st;
        last_seller_tone := tone |}) ;;
   ret match tone with
       | emotional => tactic_logical
       | logical => tactic_appeal
       | neutral => tactic_logical
       end)%py.

(** Concession tracking and reciprocity. *)
Definition _record_concession (actor : Actor) (amount : Z) : M AgentState unit :=
  modify_state (fun st =>
    {| seller_history := seller_history st;
       min_seller_seen := min_seller_seen st;
       seller_min_est := seller_min_est st;
       concessions := ledger_append actor amount (concessions st);
       last_seller_tone := last_seller_tone st |}).

Definition _seller_made_concession (new_seller_price : Z) : M AgentState (option Z) :=
  (st <- get_state ;;
   let hist := seller_history st in
   if is_empty hist then ret None
   else
     last <- lift (py_index hist (-1)) ;;
     if new_seller_price <? last then ret (Some (last - new_seller_price))
     else ret None)%py.

Definition demands : list str :=
  [lit "free delivery";
   lit "extended warranty (6 months)";
   lit "priority dispatch";
   lit "a small bulk discount on the next order";
   lit "payment terms (30 days)"].

(** The index computed by [_format_reciprocity_request]. *)
Definition reciprocity_index (buyer_concession_count : Z) : Z :=
  if 0 <? buyer_concession_count
  then Z.min (len demands - 1) (buyer_concession_count - 1)
  else 0.

Definition _format_reciprocity_request (buyer_concession_count : Z) : result str :=
  py_index demands (reciprocity_index buyer_concession_count).

(** Pricing helpers. *)
Definition _extract_price (text : option str) : option Z :=
  match text with
  | None | Some [] => None
  | Some text =>
      match search_currency text with
      | Some group1 => int_or_none (remove_commas group1)
      | None =>
          match search_digits text with
          | Some group1 => int_or_none group1
          | None => None
          end
      end
  end.

Definition _opening_offer_number (context : NegotiationContext) : result Z :=
  (let market := base_market_price (product context) in
   let budget := your_budget context in
   a <- Py.scale budget AGG_OPEN_BUDGET_RATIO ;;
   b <- Py.scale market MARKET_OPEN_RATIO ;;
   let opening := Z.min a b in
   Ok (Z.max MIN_STEP (Z.min opening budget)))%res.

Definition _walkaway_cap (context : NegotiationContext) : result Z :=
  (let market := base_market_price (product context) in
   a <- Py.scale market WALKAWAY_MARKET_RATIO ;;
   Ok (Z.min a (your_budget context)))%res.

Definition _update_seller_estimates (seller_price : Z) : M AgentState unit :=
  (modify_state (fun st =>
     {| seller_history := seller_history st ++ [seller_price];
        min_seller_seen := min_seller_seen st;
        seller_min_est := seller_min_est st;
        concessions := concessions st;
        last_seller_tone := last_seller_tone st |}) ;;
   modify_state (fun st =>
     {| seller_history := seller_history st;
        min_seller_seen :=
          match min_seller_seen st with
          | None => Some seller_price
          | Some m => Some (Z.min m seller_price)
          end;
        seller_min_est := seller_min_est st;
        concessions := concessions st;
        last_seller_tone := last_seller_tone st |}) ;;
   rough_floor <- lift (Py.scale seller_price 0.85) ;;
   st <- get_state ;;
   new_est <-
     match seller_min_est st with
     | None => ret rough_floor
     | Some est =>
         lift (a <- Py.float_mul_int EST_DECAY est ;;
               b <- Py.float_mul_int (Py.fsub 1 EST_DECAY) rough_floor ;;
               Py.int_of_float (Py.fadd a b))%res
     end ;;
   modify_state (fun st =>
     {| seller_history := seller_history st;
        min_seller_seen := min_seller_seen st;
        seller_min_est := Some new_est;
        concessions := concessions st;
        last_seller_tone := last_seller_tone st |}))%py.

Definition _closing_target_from_estimate (context : NegotiationContext)
  : M AgentState (option Z) :=
  (st <- get_state ;;
   match truthy (min_seller_seen st) with
   | None => ret None
   | Some seen =>
       est_min_floor <- lift (Py.scale seen 0.98) ;;
       target <- lift (Py.scale est_min_floor MIN_SELLER_MARGIN) ;;
       ret (Some (Z.max MIN_STEP target))
   end)%py.

(** Two blocks of [respond_to_seller_offer], named: the dynamic target
    of a normal round [r] (under [# Normal-round dynamic target]) and the
    step derived from the gap (under [# Gap-driven step as original], up
    to the acceleration after [FAST_CONCESSION_AFTER] rounds). *)
Definition dynamic_target (r opening walkaway : Z) : result Z :=
  (progress <- Py.int_div_float (r - 1) 9.0 ;;
   let eased := fpow progress 0.9 in
   x <- Py.int_mul_float (walkaway - opening) eased ;;
   y <- Py.int_add_float opening x ;;
   Py.int_of_float y)%res.

Definition gap_step (market r gap last_my : Z) : result Z :=
  (base_far <- (x <- Py.int_mul_float market 0.06 ;;
                Py.int_max_int_float MIN_STEP x) ;;
   base_close <- (x <- Py.int_mul_float market 0.02 ;;
                  Py.int_max_int_float MIN_STEP x) ;;
   pct_gap <- Py.true_div gap (Z.max 1 last_my) ;;
   step <-
     (if Py.flt 0.18 pct_gap then Ok base_far
      else if Py.flt 0.07 pct_gap then
        x <- Py.true_div (base_far + base_close) 2 ;;
        Py.int_of_float x
      else Ok base_close) ;;
   if FAST_CONCESSION_AFTER <? r
   then Py.scale step FAST_CONCESSION_MULT
   else Ok step)%res.

(** Required methods. *)
Definition generate_opening_offer (context : NegotiationContext)
  : M AgentState (Z * str) :=
  (_init_state context ;;
   offer <- lift (_opening_offer_number context) ;;
   let name := name (product context) in
   let qty := quantity (product context) in
   let content :=
     lit "My opening is " ++ [rupee] ++ str_of_int offer ++ lit " for "
     ++ str_of_int qty ++ lit " units of " ++ quality_grade (product context)
     ++ lit "-grade " ++ name ++ lit "." in
   _record_concession buyer offer ;;
   msg <- _format_professional content ;;
   ret (offer, msg))%py.

Definition respond_to_seller_offer (context : NegotiationContext)
    (seller_price : option Z) (seller_message : option str)
  : M AgentState (DealStatus * Z * str) :=
  (_init_state context ;;
   let observed :=
     match seller_price with
     | Some p => Some p
     | None => _extract_price seller_message
     end in
   match truthy observed with
   | Some observed =>
       st <- get_state ;;
       seller_conc <-
         (if is_empty (seller_history st) then ret None
          else _seller_made_concession observed) ;;
       _update_seller_estimates observed ;;
       if_some (truthy seller_conc) (fun c => 0 <? c)
         (fun c => _record_concession seller c)
         (ret tt)
   | None => ret tt
   end ;;
   tone_adapt <- personality_adaptation seller_message ;;
   let market := base_market_price (product context) in
   let budget := your_budget context in
   opening <- lift (_opening_offer_number context) ;;
   walkaway <- lift (_walkaway_cap context) ;;
   last_my <-
     (if is_empty (your_offers context) then ret opening
      else lift (py_index (your_offers context) (-1))) ;;
   interview_threshold <- lift (Py.scale budget (Py.fsub 1 SAVINGS_THRESHOLD)) ;;
   market_floor_proxy <- lift (Py.scale market 0.82) ;;
   (* Immediate acceptance conditions *)
   if_some seller_price (fun p => p <=? Z.min interview_threshold walkaway)
     (fun p =>
        let msg := lit "I accept " ++ [rupee] ++ str_of_int p
                   ++ lit ". It meets my efficiency threshold." in
        out <- _format_professional msg ;;
        ret (ACCEPTED, p, out))
  (if_some seller_price
     (fun p => (p <=? Z.min walkaway market_floor_proxy) && (p <=? budget))
     (fun p =>
        let msg := lit "I accept " ++ [rupee] ++ str_of_int p
                   ++ lit ". This aligns with my market-floor analysis." in
        out <- _format_professional msg ;;
        ret (ACCEPTED, p, out))
  (closing_target <- _closing_target_from_estimate context ;;
   let closing_target :=
     match closing_target with
     | Some ct => Some (Z.min (Z.min ct walkaway) budget)
     | None => None
     end in
   (* Late-round finalization *)
   if 9 <=? current_round context then
     if_some seller_price (fun p => p <=? budget)
       (fun p =>
          let msg := lit "Finalizing at " ++ [rupee] ++ str_of_int p ++ lit "." in
          out <- _format_professional msg ;;
          ret (ACCEPTED, p, out))
       (let last_shot := Z.min budget walkaway in
        let last_shot :=
          match truthy closing_target with
          | Some ct => Z.min last_shot (Z.max interview_threshold ct)
          | None => last_shot
          end in
        st <- get_state ;;
        let buyer_conc_count := len (of_buyer (concessions st)) in
        demand <- lift (_format_reciprocity_request buyer_conc_count) ;;
        let msg := lit "Final offer " ++ [rupee] ++ str_of_int last_shot
                   ++ lit ". In return I require: " ++ demand
                   ++ lit ". Immediate confirmation concludes the deal." in
        out <- _format_professional msg ;;
        ret (ONGOING, last_shot, out))
   else
   (* Normal-round dynamic target *)
   let r := Z.max 1 (Z.min 10 (current_round context)) in
   dynamic_target <- lift (dynamic_target r opening walkaway) ;;
   if_some seller_price (fun p => p <=? Z.min dynamic_target budget)
     (fun p =>
        let msg := lit "Agreed at " ++ [rupee] ++ str_of_int p
                   ++ lit ". Efficient resolution." in
        out <- _format_professional msg ;;
        ret (ACCEPTED, p, out))
  (match seller_price with
   | None =>
       bumped <- lift (Py.scale last_my 1.08) ;;
       let proposed := Z.min budget (Z.max opening bumped) in
       let content := lit "My counter is " ++ [rupee] ++ str_of_int proposed
                      ++ lit ". Provide a numeric offer to proceed." in
       out <- _format_professional content ;;
       ret (ONGOING, proposed, out)
   | Some seller_price =>
       (* Gap-driven step *)
       let gap := Z.max 0 (seller_price - last_my) in
       step <- lift (gap_step market r gap last_my) ;;
       let target_anchor :=
         match truthy closing_target with
         | Some ct =>
             Some (Z.min (Z.min (Z.max interview_threshold ct) walkaway) budget)
         | None => None
         end in
       proposed <-
         match truthy target_anchor with
         | Some anchor =>
             half <- lift (Py.scale (anchor - last_my) 0.5) ;;
             let toward := Z.max step half in
             ret (last_my + Z.max MIN_STEP toward)
         | None =>
             far <- lift (x <- Py.int_mul_float gap 0.45 ;;
                          Py.int_max_int_float step x)%res ;;
             ret (last_my + Z.max MIN_STEP far)
         end ;;
       let proposed := Z.max (Z.max proposed opening) last_my in
       let proposed := Z.min (Z.min proposed budget) walkaway in
       (if last_my <? proposed
        then _record_concession buyer (proposed - last_my)
        else ret tt) ;;
       st <- get_state ;;
       let buyer_conc_count := len (of_buyer (concessions st)) in
       let seller_conc_count := len (of_seller (concessions st)) in
       reciprocity_text <-
         (if seller_conc_count <? buyer_conc_count then
            demand <- lift (_format_reciprocity_request buyer_conc_count) ;;
            ret (lit " In return for this move I need: " ++ demand ++ lit ".")
          else ret []) ;;
       (* both tactics are non-empty strings, hence truthy: the source's
          third message is never built *)
       content <-
         match tone_adapt with
         | tactic_logical =>
             ret (lit "My counter is " ++ [rupee] ++ str_of_int proposed
                  ++ lit ". This reflects market structure, my ceiling, and time-to-agreement."
                  ++ reciprocity_text)
         | tactic_appeal =>
             demand <- lift (_format_reciprocity_request buyer_conc_count) ;;
             ret (lit "My counter is " ++ [rupee] ++ str_of_int proposed
                  ++ lit ". I prefer to work with you " ++ [8212%N]
                  ++ lit " if you can include " ++ demand
                  ++ lit ", we can close today."
                  ++ lit " Let's make this a lasting cooperation.")
         end ;;
       out <- _format_professional content ;;
       ret (ONGOING, proposed, out)
   end))))%py.

End Agent.
End YourBuyerAgent.

(** ** The seller agent *)

Module YourSellerAgent.
Section Agent.
Context {I : Interpreter}.

(** Tunable hyperparameters. *)
Definition MIN_STEP : Z := 1000.
Definition AGG_OPEN_RATIO : spec_float := 1.25.
Definition MARKET_OPEN_RATIO : spec_float := 1.15.
Definition WALKAWAY_RATIO : spec_float := 0.90.
Definition FAST_CONCESSION_AFTER : Z := 5.
Definition FAST_CONCESSION_MULT : spec_float := 1.5.
Definition EST_DECAY : spec_float := 0.6.
Definition MIN_BUYER_MARGIN : spec_float := 0.92.
Definition SAVINGS_THRESHOLD : spec_float := 0.08.

Record AgentState : Type := {
  buyer_history : list Z;
  max_buyer_seen : option Z;
  buyer_max_est : option Z;
  concessions : Ledger;
  last_buyer_tone : Tone
}.

Definition fresh_state : AgentState :=
  {| buyer_history := [];
     max_buyer_seen := None;
     buyer_max_est := None;
     concessions := {| of_buyer := []; of_seller := [] |};
     last_buyer_tone := neutral |}.

Definition _init_state (context : NegotiationContext) : M AgentState unit :=
  fun w =>
    match self_state w with
    | None => (Ok tt, World (Some fresh_state) (random w))
    | Some _ => (Ok tt, w)
    end.

Definition _format_professional (content : str) : M AgentState str :=
  (lead <- random_choice
     [lit "Professionally:"; lit "Let's be clear:"; lit "For efficiency:";
      lit "Directly:"] ;;
   tail <- random_choice
     [lit "Confirm at your earliest."; lit "I expect reciprocity.";
      lit "Proceed accordingly."; lit "This is sustainable."] ;;
   ret (lead ++ lit " " ++ content ++ lit " " ++ tail))%py.

Definition analyze_buyer_tone (text : option str) : Tone :=
  match text with
  | None | Some [] => neutral
  | Some text =>
      let t := str_lower text in
      let emotional_kw :=
        [lit "angry"; lit "unfair"; lit "frustrat"; lit "demand";
         lit "unacceptable"; lit "!"; lit "urgent"] in
      let logical_kw :=
        [lit "market"; lit "budget"; lit "price"; lit "analysis"; lit "cost";
         lit "%"; lit "data"] in
      let polite := [lit "please"; lit "thank"; lit "appreciate"] in
      let score := 0 in
      let score := score_keywords emotional_kw (-2) t score in
      let score := score_keywords logical_kw 1 t score in
      let score := score_keywords polite 1 t score in
      classify_score score
  end.

Definition personality_adaptation (buyer_message : option str) : M AgentState Tactic :=
  (let tone := analyze_buyer_tone buyer_message in
   modify_state (fun st =>
     {| buyer_history := buyer_history st;
        max_buyer_seen := max_buyer_seen st;
        buyer_max_est := buyer_max_est st;
        concessions := concessions st;
        last_buyer_tone := tone |}) ;;
   ret match tone with
       | emotional => tactic_logical
       | logical => tactic_appeal
       | neutral => tactic_logical
       end)%py.

Definition _record_concession (actor : Actor) (amount : Z) : M AgentState unit :=
  modify_state (fun st =>
    {| buyer_history := buyer_history st;
       max_buyer_seen := max_buyer_seen st;
       buyer_max_est := buyer_max_est st;
       concessions := ledger_append actor amount (concessions st);
       last_buyer_tone := last_buyer_tone st |}).

Definition _buyer_made_concession (new_buyer_price : Z) : M AgentState (option Z) :=
  (st <- get_state ;;
   let hist := buyer_history st in
   if is_empty hist then ret None
   else
     last <- lift (py_index hist (-1)) ;;
     if last <? new_buyer_price then ret (Some (new_buyer_price - last))
     else ret None)%py.

Definition demands : list str :=
  [lit "commitment to higher volume";
   lit "faster payment terms";
   lit "exclusive supplier status";
   lit "priority contract renewal";
   lit "multi-order agreement"].

Definition reciprocity_index (seller_concession_count : Z) : Z :=
  if 0 <? seller_concession_count
  then Z.min (len demands - 1) (seller_concession_count - 1)
  else 0.

Definition _format_reciprocity_request (seller_concession_count : Z) : result str :=
  py_index demands (reciprocity_index seller_concession_count).

Definition _opening_offer_number (context : NegotiationContext) : result Z :=
  (let market := base_market_price (product context) in
   opening <- Py.scale market AGG_OPEN_RATIO ;;
   b <- Py.scale market MARKET_OPEN_RATIO ;;
   Ok (Z.max opening b))%res.

Definition _walkaway_floor (context : NegotiationContext) : result Z :=
  Py.scale (base_market_price (product context)) WALKAWAY_RATIO.

Definition _update_buyer_estimates (buyer_price : Z) : M AgentState unit :=
  (modify_state (fun st =>
     {| buyer_history := buyer_history st ++ [buyer_price];
        max_buyer_seen := max_buyer_seen st;
        buyer_max_est := buyer_max_est st;
        concessions := concessions st;
        last_buyer_tone := last_buyer_tone st |}) ;;
   modify_state (fun st =>
     {| buyer_history := buyer_history st;
        max_buyer_seen :=
          match max_buyer_seen st with
          | None => Some buyer_price
          | Some m => Some (Z.max m buyer_price)
          end;
        buyer_max_est := buyer_max_est st;
        concessions := concessions st;
        last_buyer_tone := last_buyer_tone st |}) ;;
   rough_cap <- lift (Py.scale buyer_price 1.10) ;;
   st <- get_state ;;
   new_est <-
     match buyer_max_est st with
     | None => ret rough_cap
     | Some est =>
         lift (a <- Py.float_mul_int EST_DECAY est ;;
               b <- Py.float_mul_int (Py.fsub 1 EST_DECAY) rough_cap ;;
               Py.int_of_float (Py.fadd a b))%res
     end ;;
   modify_state (fun st =>
     {| buyer_history := buyer_history st;
        max_buyer_seen := max_buyer_seen st;
        buyer_max_est := Some new_est;
        concessions := concessions st;
        last_buyer_tone := last_buyer_tone st |}))%py.

Definition _closing_target_from_estimate (context : NegotiationContext)
  : M AgentState (option Z) :=
  (st <- get_state ;;
   match truthy (max_buyer_seen st) with
   | None => ret None
   | Some seen =>
       est_cap <- lift (Py.scale seen 1.02) ;;
       ret (Some est_cap)
   end)%py.

(** Two blocks of [respond_to_seller_offer], named: the dynamic target
    of a normal round [r] (under [# Dynamic target]) and the step of the
    counter (under [# Calculate counter]). *)
Definition dynamic_target (r opening floor : Z) : result Z :=
  (progress <- Py.int_div_float (r - 1) 9.0 ;;
   let eased := fpow progress 0.9 in
   x <- Py.int_mul_float (opening - floor) eased ;;
   y <- Py.int_sub_float opening x ;;
   Py.int_of_float y)%res.

Definition counter_step (market r : Z) : result Z :=
  (step <- (x <- Py.int_mul_float market 0.05 ;;
            Py.int_max_int_float MIN_STEP x) ;;
   if FAST_CONCESSION_AFTER <? r
   then Py.scale step FAST_CONCESSION_MULT
   else Ok step)%res.

Definition generate_opening_offer (context : NegotiationContext)
  : M AgentState (Z * str) :=
  (_init_state context ;;
   offer <- lift (_opening_offer_number context) ;;
   let name := name (product context) in
   let qty := quantity (product context) in
   let content :=
     lit "My opening is " ++ [rupee] ++ str_of_int offer ++ lit " for "
     ++ str_of_int qty ++ lit " units of " ++ quality_grade (product context)
     ++ lit "-grade " ++ name ++ lit "." in
   _record_concession seller 0 ;;
   msg <- _format_professional content ;;
   ret (offer, msg))%py.

Definition respond_to_seller_offer (context : NegotiationContext)
    (buyer_price : option Z) (buyer_message : option str)
  : M AgentState (DealStatus * Z * str) :=
  (_init_state context ;;
   match truthy buyer_price with
   | Some buyer_price =>
       st <- get_state ;;
       buyer_conc <-
         (if is_empty (buyer_history st) then ret None
          else _buyer_made_concession buyer_price) ;;
       _update_buyer_estimates buyer_price ;;
       if_some (truthy buyer_conc) (fun c => 0 <? c)
         (fun c => _record_concession buyer c)
         (ret tt)
   | None => ret tt
   end ;;
   tone_adapt <- personality_adaptation buyer_message ;;
   let market := base_market_price (product context) in
   opening <- lift (_opening_offer_number context) ;;
   floor <- lift (_walkaway_floor context) ;;
   last_my <-
     (if is_empty (your_offers context) then ret opening
      else lift (py_index (your_offers context) (-1))) ;;
   closing_target <- _closing_target_from_estimate context ;;
   let closing_target :=
     match closing_target with
     | Some ct => Some (Z.max ct floor)
     | None => None
     end in
   (* Late-round finalization *)
   if 9 <=? current_round context then
     if_some (truthy buyer_price) (fun p => floor <=? p)
       (fun p =>
          let msg := lit "Finalizing at " ++ [rupee] ++ str_of_int p ++ lit "." in
          out <- _format_professional msg ;;
          ret (ACCEPTED, p, out))
       (let last_shot := Z.max floor market in
        let last_shot :=
          match truthy closing_target with
          | Some ct => Z.max last_shot ct
          | None => last_shot
          end in
        st <- get_state ;;
        demand <- lift (_format_reciprocity_request (len (of_seller (concessions st)))) ;;
        let msg := lit "Final offer " ++ [rupee] ++ str_of_int last_shot
                   ++ lit ". In return I require: " ++ demand
                   ++ lit ". Immediate confirmation secures the deal." in
        out <- _format_professional msg ;;
        ret (ONGOING, last_shot, out))
   else
   (* Dynamic target *)
   let r := Z.max 1 (Z.min 10 (current_round context)) in
   dynamic_target <- lift (dynamic_target r opening floor) ;;
   if_some (truthy buyer_price) (fun p => dynamic_target <=? p)
     (fun p =>
        let msg := lit "Agreed at " ++ [rupee] ++ str_of_int p
                   ++ lit ". Efficient resolution." in
        out <- _format_professional msg ;;
        ret (ACCEPTED, p, out))
  ((* Calculate counter *)
   let gap :=
     match truthy buyer_price with
     | Some p => last_my - p
     | None => 0
     end in
   step <- lift (counter_step market r) ;;
   let proposed := Z.max (last_my - step) floor in
   (if proposed <? last_my
    then _record_concession seller (last_my - proposed)
    else ret tt) ;;
   st <- get_state ;;
   let buyer_conc_count := len (of_buyer (concessions st)) in
   let seller_conc_count := len (of_seller (concessions st)) in
   reciprocity_text <-
     (if buyer_conc_count <? seller_conc_count then
        demand <- lift (_format_reciprocity_request seller_conc_count) ;;
        ret (lit " In return I require: " ++ demand ++ lit ".")
      else ret []) ;;
   content <-
     match tone_adapt with
     | tactic_logical =>
         ret (lit "My counter is " ++ [rupee] ++ str_of_int proposed
              ++ lit ". This reflects market floor and sustainable pricing."
              ++ reciprocity_text)
     | tactic_appeal =>
         demand <- lift (_format_reciprocity_request seller_conc_count) ;;
         ret (lit "My counter is " ++ [rupee] ++ str_of_int proposed
              ++ lit ". I" ++ [rsquo] ++ lit "d prefer to continue this partnership "
              ++ [8212%N] ++ lit " include " ++ demand
              ++ lit ", and we close today.")
     end ;;
   out <- _format_professional content ;;
   ret (ONGOING, proposed, out)))%py.

End Agent.
End YourSellerAgent.

(** ** A concrete interpreter

    [pow] is tabulated at the arguments [respond_to_seller_offer] can pass
    (the progress [(r - 1) / 9.0] of a round [r] from 1 to 10, exponent
    [0.9]) with the values of the C library; lower-casing, [\s], [\d] and
    [int()] are those of Python on ASCII text. *)

Definition pow_table : list (spec_float * spec_float) :=
  [ (Prim2SF 0, Prim2SF 0);
    (Prim2SF 0x1.c71c71c71c71cp-4, Prim2SF 0x1.1b791644adda1p-3);
    (Prim2SF 0x1.c71c71c71c71cp-3, Prim2SF 0x1.087d5a31d965dp-2);
    (Prim2SF 0x1.5555555555555p-2, Prim2SF 0x1.7cf854c3b60b9p-2);
    (Prim2SF 0x1.c71c71c71c71cp-2, Prim2SF 0x1.ed8e1e7dbdb1ep-2);
    (Prim2SF 0x1.1c71c71c71c72p-1, Prim2SF 0x1.2daa337c3d868p-1);
    (Prim2SF 0x1.5555555555555p-1, Prim2SF 0x1.637526898d663p-1);
    (Prim2SF 0x1.8e38e38e38e39p-1, Prim2SF 0x1.985b60472ed35p-1);
    (Prim2SF 0x1.c71c71c71c71cp-1, Prim2SF 0x1.cc80d4615d09cp-1);
    (Prim2SF 1, Prim2SF 1) ].

Fixpoint lookup_float (x : spec_float) (table : list (spec_float * spec_float))
  : spec_float :=
  match table with
  | [] => S754_nan
  | (k, v) :: table' => if Py.feq x k then v else lookup_float x table'
  end.

Definition pow_tabulated (x y : spec_float) : spec_float :=
  if Py.feq y 0.9 then lookup_float x pow_table else S754_nan.

Definition ascii_lower (s : str) : str :=
  map (fun c => if (65 <=? c)%N && (c <=? 90)%N then (c + 32)%N else c) s.

Definition ascii_space (c : N) : bool :=
  (c =? 32)%N || ((9 <=? c)%N && (c <=? 13)%N).

Definition ascii_digit (c : N) : bool := (48 <=? c)%N && (c <=? 57)%N.

Definition decimal_of_str (s : str) : result Z :=
  if is_empty s || negb (forallb ascii_digit s) then Raise ValueError
  else Ok (fold_left (fun acc c => 10 * acc + (Z.of_N c - 48)) s 0).

Definition cpython : Interpreter :=
  {| fpow := pow_tabulated;
     str_lower := ascii_lower;
     re_space := ascii_space;
     re_digit := ascii_digit;
     int_of_str := decimal_of_str |}.

(** A generator whose draws are all [0], the agents with no [_state] yet,
    and the first product of the source's tests. *)
Definition rng0 : rng := Rng (fun _ => 0%nat) 0.

Definition new_agent {S : Type} (g : rng) : world S := World None g.

Definition alphonso (market : Z) : Product :=
  {| name := lit "Alphonso Mangoes";
     category := lit "Mangoes";
     quantity := 100;
     quality_grade := lit "A";
     origin := lit "Ratnagiri";
     base_market_price := market;
     attributes := [(lit "ripeness", lit "optimal"); (lit "export_grade", lit "True")] |}.

Definition context_of (p : Product) (budget round : Z) (offers : list Z)
  : NegotiationContext :=
  {| product := p;
     your_budget := budget;
     current_round := round;
     seller_offers := [];
     your_offers := offers;
     messages := [] |}.

(** ** The agents as instances of the base class (part 2 of the source) *)

Class BaseBuyerAgent (S : Type) : Type := {
  generate_opening_offer : NegotiationContext -> M S (Z * str);
  respond_to_seller_offer :
    NegotiationContext -> option Z -> option str -> M S (DealStatus * Z * str)
}.

Definition buyer_agent {I : Interpreter} : BaseBuyerAgent YourBuyerAgent.AgentState :=
  {| generate_opening_offer := YourBuyerAgent.generate_opening_offer;
     respond_to_seller_offer := YourBuyerAgent.respond_to_seller_offer |}.

Definition seller_agent {I : Interpreter} : BaseBuyerAgent YourSellerAgent.AgentState :=
  {| generate_opening_offer := YourSellerAgent.generate_opening_offer;
     respond_to_seller_offer := YourSellerAgent.respond_to_seller_offer |}.

(** ** The testing framework (part 5 of the source) *)

Module MockSellerAgent.

Definition get_opening_price (p : Product) : result (Z * str) :=
  (price <- Py.scale (base_market_price p) 1.5 ;;
   Ok (price,
       lit "These are premium " ++ quality_grade p ++ lit " grade " ++ name p
       ++ lit ". I'm asking " ++ [rupee] ++ str_of_int price ++ lit "."))%res.

Definition respond_to_buyer (min_price buyer_offer round_num : Z)
  : result (Z * str * bool) :=
  (good <- Py.int_mul_float min_price 1.1 ;;
   if Py.int_ge_float buyer_offer good then
     Ok (buyer_offer,
         lit "You have a deal at " ++ [rupee] ++ str_of_int buyer_offer ++ lit "!",
         true)
   else if 8 <=? round_num then
     bumped <- Py.scale buyer_offer 1.05 ;;
     let counter := Z.max min_price bumped in
     Ok (counter,
         lit "Final offer: " ++ [rupee] ++ str_of_int counter
         ++ lit ". Take it or leave it.",
         false)
   else
     bumped <- Py.scale buyer_offer 1.15 ;;
     let counter := Z.max min_price bumped in
     Ok (counter,
         lit "I can come down to " ++ [rupee] ++ str_of_int counter ++ lit ".",
         false))%res.

End MockSellerAgent.

(** What [run_negotiation_test] reports: whether a deal was made, its price,
    the round reached and the agent's offers.  (The percentages the source
    derives from them are left out.) *)
Record TestResult : Type := {
  deal_made : bool;
  final_price : option Z;
  rounds : Z;
  offers_made : list Z;
  conversation : list (str * str)
}.

Section Harness.
Context {S : Type} {agent : BaseBuyerAgent S}.

Definition with_round (c : NegotiationContext) (r : Z) : NegotiationContext :=
  {| product := product c; your_budget := your_budget c; current_round := r;
     seller_offers := seller_offers c; your_offers := your_offers c;
     messages := messages c |}.

Definition with_buyer_turn (c : NegotiationContext) (offer : Z) (msg : str)
  : NegotiationContext :=
  {| product := product c; your_budget := your_budget c;
     current_round := current_round c;
     seller_offers := seller_offers c; your_offers := your_offers c ++ [offer];
     messages := messages c ++ [(lit "buyer", msg)] |}.

Definition with_seller_message (c : NegotiationContext) (msg : str)
  : NegotiationContext :=
  {| product := product c; your_budget := your_budget c;
     current_round := current_round c;
     seller_offers := seller_offers c; your_offers := your_offers c;
     messages := messages c ++ [(lit "seller", msg)] |}.

Definition with_seller_offer (c : NegotiationContext) (price : Z)
  : NegotiationContext :=
  {| product := product c; your_budget := your_budget c;
     current_round := current_round c;
     seller_offers := seller_offers c ++ [price]; your_offers := your_offers c;
     messages := messages c |}.

Definition report (c : NegotiationContext) (deal : option Z) : TestResult :=
  {| deal_made := match deal with Some _ => true | None => false end;
     final_price := deal;
     rounds := current_round c;
     offers_made := your_offers c;
     conversation := messages c |}.

(** The loop [for round_num in range(10)], from [round_num] on,
    [todo] iterations being left. *)
Fixpoint negotiation_loop (todo : nat) (round_num : Z) (seller_min : Z)
    (context : NegotiationContext) (seller_price : Z) (seller_msg : str)
  : M S TestResult :=
  match todo with
  | O => ret (report context None)
  | Datatypes.S todo' =>
      (let context := with_round context (round_num + 1) in
       turn <-
         (if round_num =? 0 then
            om <- generate_opening_offer context ;;
            ret (ONGOING, fst om, snd om)
          else respond_to_seller_offer context (Some seller_price) (Some seller_msg)) ;;
       let '(status, buyer_offer, buyer_msg) := turn in
       let context := with_buyer_turn context buyer_offer buyer_msg in
       match status with
       | ACCEPTED => ret (report context (Some seller_price))
       | _ =>
           reply <- lift (MockSellerAgent.respond_to_buyer seller_min buyer_offer round_num) ;;
           let '(seller_price, seller_msg, seller_accepts) := reply in
           if seller_accepts : bool then
             ret (report (with_seller_message context seller_msg) (Some buyer_offer))
           else
             negotiation_loop todo' (round_num + 1) seller_min
               (with_seller_message (with_seller_offer context seller_price) seller_msg)
               seller_price seller_msg
       end)%py
  end.

Definition run_negotiation_test (p : Product) (buyer_budget seller_min : Z)
  : M S TestResult :=
  (let context :=
     {| product := p; your_budget := buyer_budget; current_round := 0;
        seller_offers := []; your_offers := []; messages := [] |} in
   opening <- lift (MockSellerAgent.get_opening_price p) ;;
   let '(seller_price, seller_msg) := opening in
   let context := with_seller_message (with_seller_offer context seller_price) seller_msg in
   negotiation_loop 10 0 seller_min context seller_price seller_msg)%py.

(** A session against an arbitrary counterpart: the agent opens in round
    1 and then answers, round after round, the prices and messages of
    [script]; each returned price is appended to its own offers, and an
    acceptance or an exception ends the session.  The result lists the
    counter-offers, the status ONGOING ones, in order. *)
Fixpoint answer_rounds (p : Product) (budget round : Z) (offers : list Z)
    (script : list (option Z * option str)) (w : world S) : list Z * world S :=
  match script with
  | [] => (offers, w)
  | (price, msg) :: script' =>
      match respond_to_seller_offer (context_of p budget round offers) price msg w with
      | (Ok (ONGOING, offer, _), w') =>
          answer_rounds p budget (round + 1) (offers ++ [offer]) script' w'
      | (_, w') => (offers, w')
      end
  end.

Definition session (p : Product) (budget : Z)
    (script : list (option Z * option str)) (w : world S) : list Z * world S :=
  match generate_opening_offer (context_of p budget 1 []) w with
  | (Ok (offer, _), w') => answer_rounds p budget 2 [offer] script w'
  | (Raise _, w') => ([], w')
  end.

End Harness.

(** Monotone lists, as boolean checks. *)
Fixpoint nondecreasing (l : list Z) : bool :=
  match l with
  | a :: (b :: _) as l' => (a <=? b) && nondecreasing l'
  | _ => true
  end.

Fixpoint nonincreasing (l : list Z) : bool :=
  match l with
  | a :: (b :: _) as l' => (b <=? a) && nonincreasing l'
  | _ => true
  end.

(** ** Reading the outcome of a call *)

(** The status and the price of a per-round call, the message dropped. *)
Definition decision {S : Type} (out : result (DealStatus * Z * str) * world S)
  : result (DealStatus * Z) :=
  match fst out with
  | Ok (status, price, _) => Ok (status, price)
  | Raise e => Raise e
  end.

Definition state_after {S A : Type} (out : result A * world S) : option S :=
  self_state (snd out).

(** The exceptions of a conversion between integers and floats: an integer
    beyond the doubles, an infinite or NaN float given to [int()]. *)
Definition arith (e : exn) : Prop := e = OverflowError \/ e = ValueError.

Definition only_arith {A : Type} (r : result A) : Prop :=
  forall e, r = Raise e -> arith e.

(** [triple inv m post]: run on an agent whose [_state] satisfies [inv],
    [m] either returns a value satisfying [post] and leaves a [_state]
    satisfying [inv], or raises a conversion exception. *)
Definition triple {S A : Type} (inv : S -> Prop) (m : M S A) (post : A -> Prop)
  : Prop :=
  forall w st, self_state w = Some st -> inv st ->
    match m w with
    | (Ok a, w') => post a /\ exists st', self_state w' = Some st' /\ inv st'
    | (Raise e, _) => arith e
    end.

Definition always {S : Type} (st : S) : Prop := True.

(** [indep rel m]: two runs of [m] from the same [_state], whatever the two
    generators, raise the same exception or return values related by [rel],
    and leave the same [_state]. *)
Definition indep {S A : Type} (rel : A -> A -> Prop) (m : M S A) : Prop :=
  forall w1 w2, self_state w1 = self_state w2 ->
    match m w1, m w2 with
    | (Ok a, w1'), (Ok b, w2') => rel a b /\ self_state w1' = self_state w2'
    | (Raise e1, w1'), (Raise e2, w2') => e1 = e2 /\ self_state w1' = self_state w2'
    | _, _ => False
    end.

Definition same_decision (a b : DealStatus * Z * str) : Prop :=
  fst a = fst b.

Definition same_offer (a b : Z * str) : Prop := fst a = fst b.

Definition any {A : Type} (a b : A) : Prop := True.

Definition valid_status (d : DealStatus * Z * str) : Prop :=
  fst (fst d) = ONGOING \/ fst (fst d) = ACCEPTED.

(** The second product of the source's tests. *)
Definition kesar : Product :=
  {| name := lit "Kesar Mangoes";
     category := lit "Mangoes";
     quantity := 150;
     quality_grade := lit "B";
     origin := lit "Gujarat";
     base_market_price := 150000;
     attributes := [(lit "ripeness", lit "semi-ripe"); (lit "export_grade", lit "False")] |}.



(** The offers a test run reports, none when it raised. *)
Definition offers_of (out : result TestResult) : list Z :=
  match out with
  | Ok t => offers_made t
  | Raise _ => []
  end.


(** A float that is not a negative number. *)
Definition not_negative (x : spec_float) : Prop :=
  match x with
  | S754_finite true _ _ => False
  | _ => True
  end.

(** The buyer's acceptance thresholds, and a present price that meets one:
    one of the two immediate-acceptance conditions, the within-budget check
    of a finalizing round, or the dynamic target of a normal round. *)
Definition buyer_threshold_met {I : Interpreter} (ctx : NegotiationContext) (p : Z)
  : Prop :=
  exists opening walkaway threshold proxy,
    YourBuyerAgent._opening_offer_number ctx = Ok opening /\
    YourBuyerAgent._walkaway_cap ctx = Ok walkaway /\
    Py.scale (your_budget ctx) (Py.fsub 1 YourBuyerAgent.SAVINGS_THRESHOLD)
      = Ok threshold /\
    Py.scale (base_market_price (product ctx)) 0.82 = Ok proxy /\
    (p <= Z.min threshold walkaway \/
     (p <= Z.min walkaway proxy /\ p <= your_budget ctx) \/
     (9 <= current_round ctx /\ p <= your_budget ctx) \/
     (current_round ctx < 9 /\
      exists target,
        YourBuyerAgent.dynamic_target (Z.max 1 (Z.min 10 (current_round ctx)))
          opening walkaway = Ok target /\
        p <= Z.min target (your_budget ctx))).

(** The seller's: the floor in a finalizing round, the dynamic target in a
    normal one. *)
Definition seller_threshold_met {I : Interpreter} (ctx : NegotiationContext) (p : Z)
  : Prop :=
  exists opening floor,
    YourSellerAgent._opening_offer_number ctx = Ok opening /\
    YourSellerAgent._walkaway_floor ctx = Ok floor /\
    ((9 <= current_round ctx /\ floor <= p) \/
     (current_round ctx < 9 /\
      exists target,
        YourSellerAgent.dynamic_target (Z.max 1 (Z.min 10 (current_round ctx)))
          opening floor = Ok target /\
        target <= p)).

(** The same for two computations: [indep rel m] is [indep2 rel m m]. *)
Definition indep2 {S A : Type} (rel : A -> A -> Prop) (m1 m2 : M S A) : Prop :=
  forall w1 w2, self_state w1 = self_state w2 ->
    match m1 w1, m2 w2 with
    | (Ok a, w1'), (Ok b, w2') => rel a b /\ self_state w1' = self_state w2'
    | (Raise e1, w1'), (Raise e2, w2') => e1 = e2 /\ self_state w1' = self_state w2'
    | _, _ => False
    end.

(** ** Magnitudes

    [fin k x]: the float [x] is a zero or a finite number of magnitude at
    most [2 ^ k], and its mantissa has 53 bits when its exponent is
    positive, as the results of the float operations have.  [finb] decides
    it on a given float.  [upper] is the mantissa of a shifted record,
    rounded up: what a rounding can at most return. *)
Definition fin (k : Z) (x : spec_float) : Prop :=
  match x with
  | S754_zero _ => True
  | S754_finite _ m e => (0 < e -> 2 ^ 52 <= Zpos m) /\ Zpos m <= 2 ^ (k - e)
  | _ => False
  end.

Definition finb (k : Z) (x : spec_float) : bool :=
  match x with
  | S754_zero _ => true
  | S754_finite _ m e => ((e <=? 0) || (2 ^ 52 <=? Zpos m)) && (Zpos m <=? 2 ^ (k - e))
  | _ => false
  end.

Definition upper (mrs : shr_record) : Z :=
  if shr_r mrs || shr_s mrs then shr_m mrs + 1 else shr_m mrs.

(** [small n z]: the integer [z] is at most [2 ^ n] in absolute value; an
    optional integer is small when it is absent or small; a context is
    small when its budget, its market price and its earlier offers are;
    the state of an agent is small when the extreme and the estimate it
    recorded are. *)
Definition small (n z : Z) : Prop := - 2 ^ n <= z <= 2 ^ n.

Definition opt_small (n : Z) (o : option Z) : Prop :=
  forall v, o = Some v -> small n v.

Definition context_small (n : Z) (ctx : NegotiationContext) : Prop :=
  small n (your_budget ctx) /\ small n (base_market_price (product ctx)) /\
  Forall (small n) (your_offers ctx).

Definition buyer_seen_small (n : Z) (st : YourBuyerAgent.AgentState) : Prop :=
  opt_small n (YourBuyerAgent.min_seller_seen st).

Definition buyer_state_small (n : Z) (st : YourBuyerAgent.AgentState) : Prop :=
  opt_small n (YourBuyerAgent.min_seller_seen st) /\
  opt_small n (YourBuyerAgent.seller_min_est st).

Definition seller_seen_small (n : Z) (st : YourSellerAgent.AgentState) : Prop :=
  opt_small n (YourSellerAgent.max_buyer_seen st).

Definition seller_state_small (n : Z) (st : YourSellerAgent.AgentState) : Prop :=
  opt_small n (YourSellerAgent.max_buyer_seen st) /\
  opt_small n (YourSellerAgent.buyer_max_est st).

(** What the calls need of the interpreter's [pow]: at the progress
    [(r - 1) / 9.0] of a normal round, [r] from 1 to 8, and the exponent
    [0.9] it returns a finite number of magnitude at most 1. *)
Definition pow_on_progress (I : Interpreter) : Prop :=
  forall r x, 1 <= r <= 8 -> Py.int_div_float (r - 1) 9.0 = Ok x -> fin 0 (fpow x 0.9).

(** [returns pre m post]: from an agent whose state satisfies [pre] the
    computation [m] raises nothing; it returns a value and leaves a state
    that satisfy [post]. *)
Definition returns {S A : Type} (pre : S -> Prop) (m : M S A) (post : A -> S -> Prop)
  : Prop :=
  forall w st, self_state w = Some st -> pre st ->
    exists a w' st', m w = (Ok a, w') /\ self_state w' = Some st' /\ post a st'.

(** * Proofs *)

(** ** Conversion exceptions of the numeric kernel *)

Lemma only_arith_ok {A : Type} (a : A) : only_arith (Ok a).
Proof. intros e H; discriminate H. Qed.

Lemma only_arith_bind {A B : Type} (r : result A) (k : A -> result B) :
  only_arith r -> (forall a, r = Ok a -> only_arith (k a)) -> only_arith (bindR r k).
Proof.
  intros Hr Hk e. destruct r as [a|e']; simpl.
  - apply Hk; reflexivity.
  - intros H; apply Hr; injection H as ->; reflexivity.
Qed.

Lemma float_of_int_arith (z : Z) : only_arith (Py.float_of_int z).
Proof.
  unfold Py.float_of_int; intros e.
  destruct (binary_normalize prec emax z 0 false); intros H;
    try discriminate H; injection H as <-; left; reflexivity.
Qed.

Lemma int_of_float_arith (x : spec_float) : only_arith (Py.int_of_float x).
Proof.
  intros e; destruct x; simpl; intros H; try discriminate H;
    injection H as <-; [left | right]; reflexivity.
Qed.

Lemma int_mul_float_arith z c : only_arith (Py.int_mul_float z c).
Proof.
  apply only_arith_bind; [apply float_of_int_arith | intros; apply only_arith_ok].
Qed.

Lemma float_mul_int_arith c z : only_arith (Py.float_mul_int c z).
Proof.
  apply only_arith_bind; [apply float_of_int_arith | intros; apply only_arith_ok].
Qed.

Lemma int_add_float_arith z y : only_arith (Py.int_add_float z y).
Proof.
  apply only_arith_bind; [apply float_of_int_arith | intros; apply only_arith_ok].
Qed.

Lemma int_sub_float_arith z y : only_arith (Py.int_sub_float z y).
Proof.
  apply only_arith_bind; [apply float_of_int_arith | intros; apply only_arith_ok].
Qed.

Lemma int_div_float_arith z c : Py.feq c 0 = false -> only_arith (Py.int_div_float z c).
Proof.
  intros Hc. apply only_arith_bind; [apply float_of_int_arith |].
  intros a _. rewrite Hc. apply only_arith_ok.
Qed.

Lemma true_div_arith a b : b <> 0 -> only_arith (Py.true_div a b).
Proof.
  intros Hb e. unfold Py.true_div.
  destruct (Z.eqb_spec b 0) as [->|_]; [contradiction |].
  destruct (a =? 0); [intros H; discriminate H |].
  destruct (SFdiv_core_binary prec emax (Z.abs a) 0 (Z.abs b) 0) as [[q e'] l].
  destruct (binary_round_aux prec emax _ q e' l); intros H;
    try discriminate H; injection H as <-; left; reflexivity.
Qed.

Lemma scale_arith z c : only_arith (Py.scale z c).
Proof.
  apply only_arith_bind; [apply int_mul_float_arith | intros; apply int_of_float_arith].
Qed.

Lemma int_max_int_float_arith a x : only_arith (Py.int_max_int_float a x).
Proof.
  unfold Py.int_max_int_float. destruct (Py.int_lt_float a x);
    [apply int_of_float_arith | apply only_arith_ok].
Qed.

Create HintDb conv.
#[export] Hint Resolve only_arith_ok float_of_int_arith int_of_float_arith
  int_mul_float_arith float_mul_int_arith int_add_float_arith int_sub_float_arith
  true_div_arith scale_arith int_max_int_float_arith : conv.

(** ** Indexing *)

Lemma py_index_last (l : list Z) : is_empty l = false -> exists x, py_index l (-1) = Ok x.
Proof.
  intros H. destruct l as [|a l]; [discriminate H |].
  unfold py_index.
  assert (Hlen : 0 < Z.of_nat (List.length (a :: l))) by (simpl; lia).
  set (n := Z.of_nat (List.length (a :: l))) in *.
  replace (-1 <? 0) with true by reflexivity.
  replace ((0 <=? n + -1) && (n + -1 <? n)) with true
    by (symmetry; apply andb_true_intro; split; [apply Z.leb_le | apply Z.ltb_lt]; lia).
  destruct (nth_error (a :: l) (Z.to_nat (n + -1))) eqn:E; [eauto |].
  apply nth_error_None in E. subst n. lia.
Qed.

Lemma py_index_in_range {A : Type} (l : list A) (i : Z) :
  0 <= i < len l -> exists x, py_index l i = Ok x.
Proof.
  intros [H0 H1]. unfold py_index, len in *.
  replace (i <? 0) with false by (symmetry; apply Z.ltb_ge; lia).
  replace ((0 <=? i) && (i <? Z.of_nat (List.length l))) with true
    by (symmetry; apply andb_true_intro; split; [apply Z.leb_le | apply Z.ltb_lt]; lia).
  destruct (nth_error l (Z.to_nat i)) eqn:E; [eauto |].
  apply nth_error_None in E. lia.
Qed.

(** ** Signs through the numeric kernel *)

Lemma binary_round_aux_sign s m e l :
  match binary_round_aux prec emax s m e l with
  | S754_finite s' _ _ => s' = s
  | _ => True
  end.
Proof.
  unfold binary_round_aux.
  destruct (shr_fexp prec emax m e l) as [mrs' e'].
  destruct (shr_fexp prec emax _ e' loc_Exact) as [mrs'' e''].
  destruct (shr_m mrs''); [exact I | | exact I].
  destruct (Z.leb e'' (Z.sub emax prec)); [reflexivity | exact I].
Qed.

Lemma float_of_int_not_negative z x :
  0 <= z -> Py.float_of_int z = Ok x -> not_negative x.
Proof.
  intros Hz. unfold Py.float_of_int, binary_normalize.
  destruct z as [|p|p]; [| | lia].
  - intros H; injection H as <-; exact I.
  - unfold binary_round.
    destruct (shl_align p 0 _) as [mz ez].
    pose proof (binary_round_aux_sign false (Zpos mz) ez loc_Exact) as Hs.
    destruct (binary_round_aux prec emax false (Zpos mz) ez loc_Exact);
      intros H; try discriminate H; injection H as <-; try exact I.
    simpl. subst s. exact I.
Qed.

Lemma fmul_not_negative x y :
  not_negative x -> not_negative y -> not_negative (Py.fmul x y).
Proof.
  unfold Py.fmul, SF64mul, SFmul.
  destruct x as [sx|sx| |sx mx ex], y as [sy|sy| |sy my ey]; simpl; auto.
  intros Hx Hy. destruct sx; [contradiction |]. destruct sy; [contradiction |].
  pose proof (binary_round_aux_sign (xorb false false) (Zpos (Pos.mul mx my))
                (Z.add ex ey) loc_Exact) as Hs.
  destruct (binary_round_aux prec emax (xorb false false) _ _ _); simpl; auto.
  simpl in Hs. subst s. exact I.
Qed.

Lemma int_of_float_nonneg x v :
  not_negative x -> Py.int_of_float x = Ok v -> 0 <= v.
Proof.
  destruct x as [s|s| |s m e]; simpl; intros Hx H; try discriminate H.
  - injection H as <-; lia.
  - destruct s; [contradiction |]. injection H as <-.
    destruct (0 <=? e).
    + apply Z.shiftl_nonneg; lia.
    + apply Z.shiftr_nonneg; lia.
Qed.

Lemma scale_nonneg z c v :
  0 <= z -> not_negative c -> Py.scale z c = Ok v -> 0 <= v.
Proof.
  intros Hz Hc. unfold Py.scale, Py.int_mul_float.
  destruct (Py.float_of_int z) as [x|e] eqn:E; simpl; [| discriminate].
  apply int_of_float_nonneg, fmul_not_negative; [| exact Hc].
  exact (float_of_int_not_negative z x Hz E).
Qed.

(** [int(max(a, x))] is at least [a]. *)
Lemma int_max_int_float_ge a x v :
  Py.int_max_int_float a x = Ok v -> a <= v.
Proof.
  unfold Py.int_max_int_float, Py.int_lt_float, Py.int_cmp_float, Py.int_of_float.
  destruct x as [s|s| |s m e].
  - destruct (a ?= 0) eqn:E; intros H; injection H as <-; try lia.
    rewrite Z.compare_lt_iff in E. lia.
  - destruct s; simpl; intros H; try discriminate H; injection H as <-; lia.
  - simpl; intros H; injection H as <-; lia.
  - destruct (0 <=? e) eqn:He.
    + destruct (a ?= Z.shiftl (if s then Z.neg m else Z.pos m) e) eqn:E;
        intros H; injection H as <-; try lia.
      rewrite Z.compare_lt_iff in E. apply Z.leb_le in He.
      destruct s.
      * rewrite Z.shiftl_mul_pow2 in * by lia.
        change (Z.neg m) with (- Z.pos m) in E. lia.
      * lia.
    + destruct (Z.shiftl a (- e) ?= (if s then Z.neg m else Z.pos m)) eqn:E;
        intros H; injection H as <-; try lia.
      rewrite Z.compare_lt_iff in E. apply Z.leb_gt in He.
      rewrite Z.shiftl_mul_pow2 in E by lia.
      assert (Hp : 0 < 2 ^ (- e)) by (apply Z.pow_pos_nonneg; lia).
      destruct s.
      * rewrite Z.shiftr_div_pow2 by lia.
        change (Z.neg m) with (- Z.pos m) in E.
        assert (Z.pos m / 2 ^ (- e) <= - a) by (apply Z.div_le_upper_bound; lia).
        lia.
      * rewrite Z.shiftr_div_pow2 by lia.
        apply Z.div_le_lower_bound; lia.
Qed.

(** ** Rules of the triples *)

Section Rules.
Context {S : Type} (inv : S -> Prop).

Lemma triple_ret {A : Type} (a : A) (post : A -> Prop) :
  post a -> triple inv (ret a) post.
Proof. intros H w st Hw Hst; simpl; eauto. Qed.

Lemma triple_bind {A B : Type} (m : M S A) (k : A -> M S B)
    (mid : A -> Prop) (post : B -> Prop) :
  triple inv m mid -> (forall a, mid a -> triple inv (k a) post) ->
  triple inv (bind m k) post.
Proof.
  intros Hm Hk w st Hw Hst. unfold bind. specialize (Hm w st Hw Hst).
  destruct (m w) as [[a|e] w']; [| exact Hm].
  destruct Hm as [Ha [st' [Hw' Hst']]]. exact (Hk a Ha w' st' Hw' Hst').
Qed.

Lemma triple_bind_any {A B : Type} (m : M S A) (k : A -> M S B) (post : B -> Prop) :
  triple inv m (fun _ => True) -> (forall a, triple inv (k a) post) ->
  triple inv (bind m k) post.
Proof. intros Hm Hk. apply triple_bind with (mid := fun _ => True); auto. Qed.

Lemma triple_weaken {A : Type} (m : M S A) (p q : A -> Prop) :
  triple inv m p -> (forall a, p a -> q a) -> triple inv m q.
Proof.
  intros Hm Hpq w st Hw Hst. specialize (Hm w st Hw Hst).
  destruct (m w) as [[a|e] w']; [| exact Hm]. destruct Hm; auto.
Qed.

Lemma triple_lift {A : Type} (r : result A) (post : A -> Prop) :
  only_arith r -> (forall a, r = Ok a -> post a) -> triple inv (lift r) post.
Proof.
  intros Hr Hp w st Hw Hst. unfold lift.
  destruct r as [a|e]; [eauto | apply Hr; reflexivity].
Qed.

Lemma triple_lift_eq {A : Type} (r : result A) :
  only_arith r -> triple inv (lift r) (fun a => r = Ok a).
Proof. intros Hr. apply triple_lift; auto. Qed.

Lemma triple_get : triple inv get_state inv.
Proof.
  intros w st Hw Hst. unfold get_state. rewrite Hw. eauto.
Qed.

Lemma triple_modify (f : S -> S) :
  (forall st, inv st -> inv (f st)) -> triple inv (modify_state f) (fun _ => True).
Proof.
  intros Hf w st Hw Hst. unfold modify_state. rewrite Hw.
  split; [exact I | exists (f st); split; [reflexivity | auto]].
Qed.

Lemma triple_choice {A : Type} (seq : list A) :
  seq <> [] -> triple inv (random_choice seq) (fun _ => True).
Proof.
  intros Hne w st Hw Hst. unfold random_choice. simpl.
  destruct (nth_error seq (draws (random w) (cursor (random w)) mod List.length seq)%nat) eqn:E.
  - simpl. eauto.
  - apply nth_error_None in E.
    assert (H : List.length seq <> 0%nat) by (destruct seq; [contradiction | discriminate]).
    pose proof (Nat.mod_upper_bound (draws (random w) (cursor (random w))) (List.length seq) H).
    lia.
Qed.

End Rules.

Ltac conv :=
  first [ solve [auto with conv]
        | apply only_arith_bind; [ conv | intros ? ?; conv ] ].

(** One step of a triple: [keep] tells whether the equation of a lifted
    computation is kept for the continuation. *)
Ltac tstep helper :=
  lazymatch goal with
  | |- triple _ (ret _) _ => apply triple_ret; try solve [trivial | cbn [fst snd]; auto]
  | |- triple _ (bind (lift ?r) _) _ =>
      apply triple_bind with (mid := fun a => r = Ok a);
      [ apply triple_lift_eq; conv | intros ? ?; cbv beta ]
  | |- triple _ (bind (ret ?x) _) _ =>
      apply triple_bind with (mid := fun a => a = x);
      [ apply triple_ret; reflexivity | intros ? ->; cbv beta ]
  | |- triple _ (bind (if ?b then ret _ else lift _) _) _ => destruct b eqn:?
  | |- triple _ (bind get_state _) _ =>
      eapply triple_bind; [ apply triple_get | intros ? ?; cbv beta ]
  | |- triple _ (bind _ _) _ => apply triple_bind_any; [ | intros ?; cbv beta ]
  | |- triple _ (lift _) _ => apply triple_lift; [ conv | intros; auto ]
  | |- triple _ get_state _ => apply triple_weaken with (1 := triple_get _); auto
  | |- triple _ (modify_state _) _ =>
      apply triple_weaken with (p := fun _ => True);
      [ apply triple_modify; try solve [intros ? ?; simpl in *; auto] | auto ]
  | |- triple _ (if_some _ _ _ _) _ => unfold if_some
  | |- triple _ (if ?b then _ else _) _ => destruct b eqn:?
  | |- triple _ (match ?x with _ => _ end) _ => destruct x eqn:?
  | |- _ => helper
  end.

Lemma py_index_last_arith (l : list Z) : is_empty l = false -> only_arith (py_index l (-1)).
Proof. intros H. destruct (py_index_last l H) as [x ->]. apply only_arith_ok. Qed.

Lemma nine_not_zero : Py.feq 9.0 0 = false.
Proof. vm_compute. reflexivity. Qed.

#[export] Hint Resolve py_index_last_arith : conv.

Section BuyerHelpers.
Context {interp : Interpreter}.
Import YourBuyerAgent.

Lemma buyer_format_triple inv c : triple inv (_format_professional c) (fun _ => True).
Proof.
  unfold _format_professional.
  apply triple_bind_any; [apply triple_choice; discriminate | intros lead].
  apply triple_bind_any; [apply triple_choice; discriminate | intros tail].
  apply triple_ret; exact I.
Qed.

Lemma buyer_reciprocity_index_range n :
  0 <= reciprocity_index n < len demands.
Proof.
  unfold reciprocity_index. change (len demands) with 5.
  destruct (Z.ltb_spec 0 n); lia.
Qed.

Lemma buyer_reciprocity_ok n : exists d, _format_reciprocity_request n = Ok d.
Proof. apply py_index_in_range, buyer_reciprocity_index_range. Qed.

Lemma buyer_reciprocity_arith n : only_arith (_format_reciprocity_request n).
Proof. destruct (buyer_reciprocity_ok n) as [d ->]. apply only_arith_ok. Qed.

Lemma buyer_opening_arith ctx : only_arith (_opening_offer_number ctx).
Proof. unfold _opening_offer_number. conv. Qed.

Lemma buyer_walkaway_arith ctx : only_arith (_walkaway_cap ctx).
Proof. unfold _walkaway_cap. conv. Qed.

Lemma buyer_dynamic_target_arith r o w : only_arith (dynamic_target r o w).
Proof.
  unfold dynamic_target.
  apply only_arith_bind; [apply int_div_float_arith, nine_not_zero | intros; conv].
Qed.

Lemma buyer_gap_step_arith market r gap last_my : only_arith (gap_step market r gap last_my).
Proof.
  unfold gap_step.
  apply only_arith_bind; [conv | intros far _].
  apply only_arith_bind; [conv | intros close _].
  apply only_arith_bind; [apply true_div_arith; lia | intros pct _].
  apply only_arith_bind.
  - destruct (Py.flt 0.18 pct); [conv |].
    destruct (Py.flt 0.07 pct); [| conv].
    apply only_arith_bind; [apply true_div_arith; lia | intros; conv].
  - intros step _. destruct (FAST_CONCESSION_AFTER <? r); conv.
Qed.

#[local] Hint Resolve buyer_reciprocity_arith buyer_opening_arith buyer_walkaway_arith
  buyer_dynamic_target_arith buyer_gap_step_arith : conv.

Lemma buyer_adaptation_triple m : triple always (personality_adaptation m) (fun _ => True).
Proof. unfold personality_adaptation. repeat tstep fail. Qed.

Lemma buyer_record_triple a z : triple always (_record_concession a z) (fun _ => True).
Proof. unfold _record_concession. repeat tstep fail. Qed.

Lemma buyer_concession_triple inv z : triple inv (_seller_made_concession z) (fun _ => True).
Proof. unfold _seller_made_concession. repeat tstep fail. Qed.

Lemma buyer_update_triple z : triple always (_update_seller_estimates z) (fun _ => True).
Proof. unfold _update_seller_estimates. repeat tstep fail. Qed.

Lemma buyer_closing_triple inv ctx :
  triple inv (_closing_target_from_estimate ctx) (fun _ => True).
Proof. unfold _closing_target_from_estimate. repeat tstep fail. Qed.


Lemma buyer_init_has_state ctx (w : world AgentState) :
  exists w' st, _init_state ctx w = (Ok tt, w') /\ self_state w' = Some st.
Proof.
  unfold _init_state. destruct (self_state w) eqn:E.
  - exists w, a; split; [reflexivity | exact E].
  - eexists _, _; split; reflexivity.
Qed.

Lemma buyer_walkaway_le_budget ctx w : _walkaway_cap ctx = Ok w -> w <= your_budget ctx.
Proof.
  unfold _walkaway_cap. destruct (Py.scale _ _); simpl; intros H; [| discriminate H].
  injection H as <-. lia.
Qed.

(** From a triple of the body that follows [_init_state] to the call. *)
Lemma buyer_after_init {A : Type} ctx (rest : unit -> M AgentState A) post w :
  triple always (rest tt) post ->
  match bind (_init_state ctx) rest w with
  | (Ok a, _) => post a
  | (Raise e, _) => arith e
  end.
Proof.
  intros Hrest. unfold bind.
  destruct (buyer_init_has_state ctx w) as [w' [st [-> Hw']]].
  specialize (Hrest w' st Hw' I).
  destruct (rest tt w') as [[d|e] w'']; [apply Hrest | exact Hrest].
Qed.

End BuyerHelpers.

#[export] Hint Resolve buyer_reciprocity_arith buyer_opening_arith buyer_walkaway_arith
  buyer_dynamic_target_arith buyer_gap_step_arith : conv.

Ltac same_results :=
  repeat match goal with
  | H1 : ?r = Ok ?a, H2 : ?r = Ok ?a |- _ => clear H2
  | H1 : ?r = Ok ?a, H2 : ?r = Ok ?b |- _ =>
      let E := fresh in
      assert (E : a = b) by congruence; subst; try clear H2
  | H : Some _ = Some _ |- _ => injection H as H
  | H : Some _ = None |- _ => discriminate H
  | H : None = Some _ |- _ => discriminate H
  end.

Ltac bools :=
  repeat match goal with
  | H : (_ && _) = true |- _ => apply andb_true_iff in H; destruct H
  | H : (_ && _) = false |- _ => apply andb_false_iff in H
  | H : (_ <=? _) = true |- _ => apply Z.leb_le in H
  | H : (_ <=? _) = false |- _ => apply Z.leb_gt in H
  | H : (_ <? _) = true |- _ => apply Z.ltb_lt in H
  | H : (_ <? _) = false |- _ => apply Z.ltb_ge in H
  end.

Ltac cases :=
  repeat match goal with
  | |- context [match ?x with _ => _ end] => destruct x eqn:?
  end.

Ltac buyer_helper :=
  first [ apply buyer_format_triple | apply buyer_adaptation_triple
        | apply buyer_record_triple | apply buyer_concession_triple
        | apply buyer_update_triple | apply buyer_closing_triple ].

Ltac buyer_respond P :=
  unfold YourBuyerAgent.respond_to_seller_offer;
  apply (buyer_after_init _ _ P);
  cbv beta zeta; repeat tstep buyer_helper.

Ltac walkaway_bound :=
  repeat match goal with
  | H : YourBuyerAgent._walkaway_cap _ = Ok _ |- _ =>
      lazymatch goal with
      | Hb : _ <= your_budget _ |- _ => fail
      | _ => pose proof (buyer_walkaway_le_budget _ _ H)
      end
  end.

Section BuyerRounds.
Context {interp : Interpreter}.
Import YourBuyerAgent.


Theorem buyer_respond_status ctx p m w :
  match respond_to_seller_offer ctx p m w with
  | (Ok d, _) => valid_status d
  | (Raise e, _) => arith e
  end.
Proof.
  buyer_respond (fun d : DealStatus * Z * str =>
                   fst (fst d) = ONGOING \/ fst (fst d) = ACCEPTED).
Qed.

Theorem buyer_respond_within_budget ctx p m w :
  match respond_to_seller_offer ctx p m w with
  | (Ok d, _) => snd (fst d) <= your_budget ctx
  | (Raise e, _) => arith e
  end.
Proof.
  buyer_respond (fun d : DealStatus * Z * str => snd (fst d) <= your_budget ctx).
  all: cbn [fst snd]; bools;
    repeat match goal with
    | H : _walkaway_cap _ = Ok _ |- _ => apply buyer_walkaway_le_budget in H
    end; cases; try lia.
Qed.

Theorem buyer_accepts ctx p m w :
  buyer_threshold_met ctx p ->
  match respond_to_seller_offer ctx (Some p) m w with
  | (Ok d, _) => fst d = (ACCEPTED, p)
  | (Raise e, _) => arith e
  end.
Proof.
  intros (opening & walkaway & threshold & proxy & Ho & Hw & Ht & Hp & Hmet).
  buyer_respond (fun d : DealStatus * Z * str => fst d = (ACCEPTED, p)).
  all: cbn [fst snd]; same_results; try reflexivity.
  all: exfalso; bools; walkaway_bound;
    destruct Hmet as [Hm | [[Hm Hm'] | [[Hm Hm'] | [Hm [target [Hd Hm']]]]]];
    same_results; lia.
Qed.

Theorem buyer_counter_not_below_last ctx p m w last walkaway :
  is_empty (your_offers ctx) = false ->
  py_index (your_offers ctx) (-1) = Ok last ->
  _walkaway_cap ctx = Ok walkaway ->
  last <= walkaway ->
  current_round ctx < 9 ->
  match respond_to_seller_offer ctx (Some p) m w with
  | (Ok d, _) => fst (fst d) = ONGOING -> last <= snd (fst d) <= walkaway
  | (Raise e, _) => arith e
  end.
Proof.
  intros Hne Hlast Hw Hle Hround.
  buyer_respond (fun d : DealStatus * Z * str =>
                   fst (fst d) = ONGOING -> last <= snd (fst d) <= walkaway).
  all: cbn [fst snd]; try discriminate; intros _; same_results; bools;
    walkaway_bound; try congruence; try lia.
Qed.

Theorem buyer_opening_returned ctx w :
  match generate_opening_offer ctx w with
  | (Ok om, _) => _opening_offer_number ctx = Ok (fst om)
  | (Raise e, _) => arith e
  end.
Proof.
  unfold generate_opening_offer.
  apply (buyer_after_init _ _ (fun om : Z * str => _opening_offer_number ctx = Ok (fst om))).
  cbv beta zeta. repeat tstep buyer_helper.
Qed.

End BuyerRounds.

(** ** The seller's calls *)

Section SellerHelpers.
Context {interp : Interpreter}.
Import YourSellerAgent.

Lemma seller_format_triple inv c : triple inv (_format_professional c) (fun _ => True).
Proof.
  unfold _format_professional.
  apply triple_bind_any; [apply triple_choice; discriminate | intros lead].
  apply triple_bind_any; [apply triple_choice; discriminate | intros tail].
  apply triple_ret; exact I.
Qed.

Lemma seller_reciprocity_index_range n :
  0 <= reciprocity_index n < len demands.
Proof.
  unfold reciprocity_index. change (len demands) with 5.
  destruct (Z.ltb_spec 0 n); lia.
Qed.

Lemma seller_reciprocity_ok n : exists d, _format_reciprocity_request n = Ok d.
Proof. apply py_index_in_range, seller_reciprocity_index_range. Qed.

Lemma seller_reciprocity_arith n : only_arith (_format_reciprocity_request n).
Proof. destruct (seller_reciprocity_ok n) as [d ->]. apply only_arith_ok. Qed.

Lemma seller_opening_arith ctx : only_arith (_opening_offer_number ctx).
Proof. unfold _opening_offer_number. conv. Qed.

Lemma seller_floor_arith ctx : only_arith (_walkaway_floor ctx).
Proof. unfold _walkaway_floor. conv. Qed.

Lemma seller_dynamic_target_arith r o f : only_arith (dynamic_target r o f).
Proof.
  unfold dynamic_target.
  apply only_arith_bind; [apply int_div_float_arith, nine_not_zero | intros; conv].
Qed.

Lemma seller_counter_step_arith market r : only_arith (counter_step market r).
Proof.
  unfold counter_step.
  apply only_arith_bind; [conv | intros step _].
  destruct (FAST_CONCESSION_AFTER <? r); conv.
Qed.

#[local] Hint Resolve seller_reciprocity_arith seller_opening_arith seller_floor_arith
  seller_dynamic_target_arith seller_counter_step_arith : conv.

Lemma seller_adaptation_triple m : triple always (personality_adaptation m) (fun _ => True).
Proof. unfold personality_adaptation. repeat tstep fail. Qed.

Lemma seller_record_triple a z : triple always (_record_concession a z) (fun _ => True).
Proof. unfold _record_concession. repeat tstep fail. Qed.

Lemma seller_concession_triple inv z : triple inv (_buyer_made_concession z) (fun _ => True).
Proof. unfold _buyer_made_concession. repeat tstep fail. Qed.

Lemma seller_update_triple z : triple always (_update_buyer_estimates z) (fun _ => True).
Proof. unfold _update_buyer_estimates. repeat tstep fail. Qed.

Lemma seller_closing_triple inv ctx :
  triple inv (_closing_target_from_estimate ctx) (fun _ => True).
Proof. unfold _closing_target_from_estimate. repeat tstep fail. Qed.

Lemma seller_init_has_state ctx (w : world AgentState) :
  exists w' st, _init_state ctx w = (Ok tt, w') /\ self_state w' = Some st.
Proof.
  unfold _init_state. destruct (self_state w) eqn:E.
  - exists w, a; split; [reflexivity | exact E].
  - eexists _, _; split; reflexivity.
Qed.

Lemma seller_after_init {A : Type} ctx (rest : unit -> M AgentState A) post w :
  triple always (rest tt) post ->
  match bind (_init_state ctx) rest w with
  | (Ok a, _) => post a
  | (Raise e, _) => arith e
  end.
Proof.
  intros Hrest. unfold bind.
  destruct (seller_init_has_state ctx w) as [w' [st [-> Hw']]].
  specialize (Hrest w' st Hw' I).
  destruct (rest tt w') as [[d|e] w'']; [apply Hrest | exact Hrest].
Qed.

End SellerHelpers.

#[export] Hint Resolve seller_reciprocity_arith seller_opening_arith seller_floor_arith
  seller_dynamic_target_arith seller_counter_step_arith : conv.

Ltac seller_helper :=
  first [ apply seller_format_triple | apply seller_adaptation_triple
        | apply seller_record_triple | apply seller_concession_triple
        | apply seller_update_triple | apply seller_closing_triple ].

Ltac seller_respond P :=
  unfold YourSellerAgent.respond_to_seller_offer;
  apply (seller_after_init _ _ P);
  cbv beta zeta; repeat tstep seller_helper.

Section SellerRounds.
Context {interp : Interpreter}.
Import YourSellerAgent.

Theorem seller_respond_status ctx p m w :
  match respond_to_seller_offer ctx p m w with
  | (Ok d, _) => valid_status d
  | (Raise e, _) => arith e
  end.
Proof.
  seller_respond (fun d : DealStatus * Z * str =>
                    fst (fst d) = ONGOING \/ fst (fst d) = ACCEPTED).
Qed.

(** The step of the seller's counter is never negative. *)
Lemma seller_counter_step_nonneg market r step :
  counter_step market r = Ok step -> 0 <= step.
Proof.
  unfold counter_step.
  destruct (Py.int_mul_float market 0.05) as [x|e]; simpl; [| discriminate].
  destruct (Py.int_max_int_float MIN_STEP x) as [s0|e] eqn:E; simpl; [| discriminate].
  apply int_max_int_float_ge in E. unfold MIN_STEP in E.
  destruct (FAST_CONCESSION_AFTER <? r).
  - apply scale_nonneg; [lia | vm_compute; exact I].
  - intros H; injection H as <-; lia.
Qed.

Theorem seller_accepts ctx p m w :
  p <> 0 ->
  seller_threshold_met ctx p ->
  match respond_to_seller_offer ctx (Some p) m w with
  | (Ok d, _) => fst d = (ACCEPTED, p)
  | (Raise e, _) => arith e
  end.
Proof.
  intros Hp (opening & floor & Ho & Hf & Hmet).
  assert (Ht : truthy (Some p) = Some p) by (destruct p; [contradiction | |]; reflexivity).
  unfold respond_to_seller_offer. rewrite Ht.
  apply (seller_after_init _ _ (fun d : DealStatus * Z * str => fst d = (ACCEPTED, p))).
  cbv beta zeta. repeat tstep seller_helper.
  all: cbn [fst snd]; same_results; try reflexivity.
  all: exfalso; bools;
    destruct Hmet as [[Hm Hm'] | [Hm [target [Hd Hm']]]]; same_results; lia.
Qed.


Theorem seller_opening_returned ctx w :
  match generate_opening_offer ctx w with
  | (Ok om, _) => _opening_offer_number ctx = Ok (fst om)
  | (Raise e, _) => arith e
  end.
Proof.
  unfold generate_opening_offer.
  apply (seller_after_init _ _ (fun om : Z * str => _opening_offer_number ctx = Ok (fst om))).
  cbv beta zeta. repeat tstep seller_helper.
Qed.

End SellerRounds.

(** ** Sessions *)

Lemma py_index_last_app (l : list Z) (x : Z) : py_index (l ++ [x]) (-1) = Ok x.
Proof.
  unfold py_index. rewrite length_app. simpl List.length.
  replace (-1 <? 0) with true by reflexivity.
  set (n := Z.of_nat (List.length l + 1)).
  assert (Hn : n = Z.of_nat (List.length l) + 1) by (subst n; lia).
  replace ((0 <=? n + -1) && (n + -1 <? n)) with true
    by (symmetry; apply andb_true_intro; split; [apply Z.leb_le | apply Z.ltb_lt]; lia).
  replace (Z.to_nat (n + -1)) with (List.length l) by lia.
  rewrite nth_error_app2 by lia. rewrite Nat.sub_diag. reflexivity.
Qed.

Lemma is_empty_app (l : list Z) (x : Z) : is_empty (l ++ [x]) = false.
Proof. destruct l; reflexivity. Qed.

Lemma nondecreasing_app (l : list Z) (a x : Z) :
  nondecreasing (l ++ [a]) = true -> a <= x -> nondecreasing ((l ++ [a]) ++ [x]) = true.
Proof.
  intros H Hax. induction l as [|b l IH].
  - simpl. rewrite andb_true_r. apply Z.leb_le; exact Hax.
  - destruct l as [|c l].
    + simpl in *. apply andb_true_iff in H. destruct H as [H _].
      rewrite H. simpl. rewrite andb_true_r. apply Z.leb_le; exact Hax.
    + change (nondecreasing ((b :: c :: l) ++ [a])) with
        ((b <=? c) && nondecreasing ((c :: l) ++ [a])) in H.
      apply andb_true_iff in H. destruct H as [Hbc H].
      change (nondecreasing (((b :: c :: l) ++ [a]) ++ [x])) with
        ((b <=? c) && nondecreasing (((c :: l) ++ [a]) ++ [x])).
      rewrite Hbc. simpl andb. apply IH; exact H.
Qed.

Lemma nonincreasing_app (l : list Z) (a x : Z) :
  nonincreasing (l ++ [a]) = true -> x <= a -> nonincreasing ((l ++ [a]) ++ [x]) = true.
Proof.
  intros H Hax. induction l as [|b l IH].
  - simpl. rewrite andb_true_r. apply Z.leb_le; exact Hax.
  - destruct l as [|c l].
    + simpl in *. apply andb_true_iff in H. destruct H as [H _].
      rewrite H. simpl. rewrite andb_true_r. apply Z.leb_le; exact Hax.
    + change (nonincreasing ((b :: c :: l) ++ [a])) with
        ((c <=? b) && nonincreasing ((c :: l) ++ [a])) in H.
      apply andb_true_iff in H. destruct H as [Hbc H].
      change (nonincreasing (((b :: c :: l) ++ [a]) ++ [x])) with
        ((c <=? b) && nonincreasing (((c :: l) ++ [a]) ++ [x])).
      rewrite Hbc. simpl andb. apply IH; exact H.
Qed.

(** Once eight offers are made, later ones leave the first eight as they
    are; before, a new offer is among them. *)
Lemma firstn_8_app_late (l : list Z) (x : Z) :
  (8 <= List.length l)%nat -> firstn 8 (l ++ [x]) = firstn 8 l.
Proof.
  intros H. rewrite firstn_app.
  replace (8 - List.length l)%nat with 0%nat by lia.
  simpl. apply app_nil_r.
Qed.

Lemma firstn_8_app_early (l : list Z) (x : Z) :
  (List.length l < 8)%nat -> firstn 8 (l ++ [x]) = firstn 8 l ++ [x].
Proof.
  intros H. rewrite firstn_app. f_equal.
  destruct (8 - List.length l)%nat eqn:E; [lia | simpl; rewrite firstn_nil; reflexivity].
Qed.

Section BuyerSessions.
Context {interp : Interpreter}.

(** From round 2 on, while every counterpart price is present: the
    buyer's counters of the rounds before 9 do not decrease, as long as its
    last offer is within the walk-away cap. *)
Lemma buyer_answer_rounds_nondecreasing p budget walkaway :
  YourBuyerAgent._walkaway_cap (context_of p budget 1 []) = Ok walkaway ->
  forall script round l last w,
    Forall (fun turn : option Z * option str => fst turn <> None) script ->
    Z.of_nat (List.length (l ++ [last])) = round - 1 ->
    (round < 9 -> last <= walkaway) ->
    nondecreasing (firstn 8 (l ++ [last])) = true ->
    nondecreasing
      (firstn 8 (fst (answer_rounds (agent := buyer_agent) p budget round
                        (l ++ [last]) script w))) = true.
Proof.
  intros Hw script. induction script as [|[price msg] script IH];
    intros round l last w Hall Hlen Hlast Hmono; [exact Hmono |].
  inversion Hall as [|? ? Hprice Hall']; subst. simpl in Hprice.
  destruct price as [price|]; [clear Hprice | contradiction].
  cbn [answer_rounds respond_to_seller_offer buyer_agent].
  destruct (Z.ltb_spec round 9) as [Hr|Hr].
  - pose proof (buyer_counter_not_below_last (context_of p budget round (l ++ [last]))
                  price msg w last walkaway (is_empty_app l last)
                  (py_index_last_app l last) Hw (Hlast Hr) Hr) as Hstep.
    destruct (YourBuyerAgent.respond_to_seller_offer _ (Some price) msg w)
      as [[[[status offer] out]|e] w']; [| exact Hmono].
    destruct status; try exact Hmono.
    cbn [fst snd] in Hstep. specialize (Hstep eq_refl).
    assert (Hshort : (List.length (l ++ [last]) < 8)%nat) by lia.
    apply IH; try assumption.
    + rewrite length_app. simpl List.length. lia.
    + intros _. lia.
    + rewrite firstn_8_app_early by exact Hshort.
      rewrite firstn_all2 in * by lia.
      apply nondecreasing_app; [exact Hmono | lia].
  - destruct (YourBuyerAgent.respond_to_seller_offer _ (Some price) msg w)
      as [[[[status offer] out]|e] w']; [| exact Hmono].
    destruct status; try exact Hmono.
    apply IH; try assumption.
    + rewrite length_app. simpl List.length. lia.
    + intros; lia.
    + rewrite firstn_8_app_late by lia. exact Hmono.
Qed.

Theorem buyer_session_nondecreasing p budget script w opening walkaway :
  YourBuyerAgent._opening_offer_number (context_of p budget 1 []) = Ok opening ->
  YourBuyerAgent._walkaway_cap (context_of p budget 1 []) = Ok walkaway ->
  opening <= walkaway ->
  Forall (fun turn : option Z * option str => fst turn <> None) script ->
  nondecreasing (firstn 8 (fst (session (agent := buyer_agent) p budget script w)))
    = true.
Proof.
  intros Ho Hw Hle Hall. unfold session.
  cbn [generate_opening_offer buyer_agent].
  pose proof (buyer_opening_returned (context_of p budget 1 []) w) as Hopen.
  destruct (YourBuyerAgent.generate_opening_offer _ w) as [[[offer out]|e] w'];
    [| reflexivity].
  cbn [fst] in Hopen. rewrite Ho in Hopen. injection Hopen as <-.
  apply (buyer_answer_rounds_nondecreasing p budget walkaway Hw script 2 [] opening w');
    auto.
Qed.

End BuyerSessions.

Section SellerSessions.
Context {interp : Interpreter}.

(** In a normal round the seller's counter is between its floor and its
    last offer, when that one is not below the floor. *)
Theorem seller_counter_not_above_last ctx p m w last floor :
  is_empty (your_offers ctx) = false ->
  py_index (your_offers ctx) (-1) = Ok last ->
  YourSellerAgent._walkaway_floor ctx = Ok floor ->
  floor <= last ->
  current_round ctx < 9 ->
  match YourSellerAgent.respond_to_seller_offer ctx p m w with
  | (Ok d, _) => fst (fst d) = ONGOING -> floor <= snd (fst d) <= last
  | (Raise e, _) => arith e
  end.
Proof.
  intros Hne Hlast Hf Hle Hround.
  seller_respond (fun d : DealStatus * Z * str =>
                    fst (fst d) = ONGOING -> floor <= snd (fst d) <= last).
  all: cbn [fst snd]; try discriminate; intros _; same_results; bools;
    repeat match goal with
    | H : YourSellerAgent.counter_step _ _ = Ok _ |- _ =>
        apply seller_counter_step_nonneg in H
    end; try congruence; try lia.
Qed.

Lemma seller_answer_rounds_nonincreasing p budget floor :
  YourSellerAgent._walkaway_floor (context_of p budget 1 []) = Ok floor ->
  forall script round l last w,
    Z.of_nat (List.length (l ++ [last])) = round - 1 ->
    (round < 9 -> floor <= last) ->
    nonincreasing (firstn 8 (l ++ [last])) = true ->
    nonincreasing
      (firstn 8 (fst (answer_rounds (agent := seller_agent) p budget round
                        (l ++ [last]) script w))) = true.
Proof.
  intros Hf script. induction script as [|[price msg] script IH];
    intros round l last w Hlen Hlast Hmono; [exact Hmono |].
  cbn [answer_rounds respond_to_seller_offer seller_agent].
  destruct (Z.ltb_spec round 9) as [Hr|Hr].
  - pose proof (seller_counter_not_above_last (context_of p budget round (l ++ [last]))
                  price msg w last floor (is_empty_app l last)
                  (py_index_last_app l last) Hf (Hlast Hr) Hr) as Hstep.
    destruct (YourSellerAgent.respond_to_seller_offer _ price msg w)
      as [[[[status offer] out]|e] w']; [| exact Hmono].
    destruct status; try exact Hmono.
    cbn [fst snd] in Hstep. specialize (Hstep eq_refl).
    assert (Hshort : (List.length (l ++ [last]) < 8)%nat) by lia.
    apply IH; try assumption.
    + rewrite length_app. simpl List.length. lia.
    + intros _. lia.
    + rewrite firstn_8_app_early by exact Hshort.
      rewrite firstn_all2 in * by lia.
      apply nonincreasing_app; [exact Hmono | lia].
  - destruct (YourSellerAgent.respond_to_seller_offer _ price msg w)
      as [[[[status offer] out]|e] w']; [| exact Hmono].
    destruct status; try exact Hmono.
    apply IH; try assumption.
    + rewrite length_app. simpl List.length. lia.
    + intros; lia.
    + rewrite firstn_8_app_late by lia. exact Hmono.
Qed.

Theorem seller_session_nonincreasing p budget script w opening floor :
  YourSellerAgent._opening_offer_number (context_of p budget 1 []) = Ok opening ->
  YourSellerAgent._walkaway_floor (context_of p budget 1 []) = Ok floor ->
  floor <= opening ->
  nonincreasing (firstn 8 (fst (session (agent := seller_agent) p budget script w)))
    = true.
Proof.
  intros Ho Hf Hle. unfold session.
  cbn [generate_opening_offer seller_agent].
  pose proof (seller_opening_returned (context_of p budget 1 []) w) as Hopen.
  destruct (YourSellerAgent.generate_opening_offer _ w) as [[[offer out]|e] w'];
    [| reflexivity].
  cbn [fst] in Hopen. rewrite Ho in Hopen. injection Hopen as <-.
  apply (seller_answer_rounds_nonincreasing p budget floor Hf script 2 [] opening w');
    auto.
Qed.

End SellerSessions.

(** ** Independence of the generator *)

Section IndepRules.
Context {S : Type}.

Lemma indep2_ret {A : Type} (rel : A -> A -> Prop) (a b : A) :
  rel a b -> indep2 (S := S) rel (ret a) (ret b).
Proof. intros H w1 w2 Hw; simpl; auto. Qed.

Lemma indep2_bind {A B : Type} (m1 m2 : M S A) (k1 k2 : A -> M S B)
    (mid : A -> A -> Prop) (rel : B -> B -> Prop) :
  indep2 mid m1 m2 ->
  (forall a b, mid a b -> indep2 rel (k1 a) (k2 b)) ->
  indep2 rel (bind m1 k1) (bind m2 k2).
Proof.
  intros Hm Hk w1 w2 Hw. unfold bind. specialize (Hm w1 w2 Hw).
  destruct (m1 w1) as [[a|e1] w1'], (m2 w2) as [[b|e2] w2']; try contradiction.
  - destruct Hm as [Hab Hw']. exact (Hk a b Hab w1' w2' Hw').
  - exact Hm.
Qed.

Lemma indep2_lift {A : Type} (r : result A) : indep2 (S := S) eq (lift r) (lift r).
Proof. intros w1 w2 Hw. unfold lift. destruct r; simpl; auto. Qed.

Lemma indep2_get : indep2 (S := S) eq get_state get_state.
Proof.
  intros w1 w2 Hw. unfold get_state. rewrite <- Hw.
  destruct (self_state w1) eqn:E; simpl; split; congruence.
Qed.

Lemma indep2_modify (f : S -> S) : indep2 eq (modify_state f) (modify_state f).
Proof.
  intros w1 w2 Hw. unfold modify_state. rewrite <- Hw.
  destruct (self_state w1) eqn:E; simpl; split; congruence.
Qed.

Lemma indep2_choice {A : Type} (seq : list A) :
  seq <> [] -> indep2 (S := S) any (random_choice seq) (random_choice seq).
Proof.
  intros Hne w1 w2 Hw. unfold random_choice. simpl.
  assert (Hlen : List.length seq <> 0%nat) by (destruct seq; [contradiction | discriminate]).
  destruct (nth_error seq (draws (random w1) (cursor (random w1)) mod List.length seq)%nat)
    eqn:E1.
  - destruct (nth_error seq (draws (random w2) (cursor (random w2)) mod List.length seq)%nat)
      eqn:E2.
    + simpl. split; [exact I | exact Hw].
    + apply nth_error_None in E2.
      pose proof (Nat.mod_upper_bound (draws (random w2) (cursor (random w2))) _ Hlen). lia.
  - apply nth_error_None in E1.
    pose proof (Nat.mod_upper_bound (draws (random w1) (cursor (random w1))) _ Hlen). lia.
Qed.

Lemma indep_of_indep2 {A : Type} (rel : A -> A -> Prop) (m : M S A) :
  indep2 rel m m -> indep rel m.
Proof. intros H; exact H. Qed.

End IndepRules.

Ltac istep helper :=
  lazymatch goal with
  | |- indep2 _ (ret _) (ret _) => apply indep2_ret; try solve [reflexivity | exact I]
  | |- indep2 _ (bind (random_choice _) _) (bind (random_choice _) _) =>
      apply indep2_bind with (mid := any);
      [ apply indep2_choice; discriminate | intros ? ? _; cbv beta ]
  | |- indep2 _ (lift _) (lift _) => apply indep2_lift
  | |- indep2 _ get_state get_state => apply indep2_get
  | |- indep2 _ (modify_state _) (modify_state _) => apply indep2_modify
  | |- indep2 _ (if_some _ _ _ _) _ => unfold if_some
  | |- indep2 _ (if ?b then _ else _) _ => destruct b
  | |- indep2 _ (match ?x with _ => _ end) _ => destruct x
  | |- _ =>
      first [ helper
            | apply indep2_bind with (mid := eq); [ | intros ? ? <-; cbv beta ] ]
  end.

Section BuyerIndep.
Context {interp : Interpreter}.
Import YourBuyerAgent.

Lemma buyer_format_indep c1 c2 :
  indep2 any (_format_professional c1) (_format_professional c2).
Proof. unfold _format_professional. repeat istep fail. Qed.

Lemma buyer_init_indep ctx : indep2 eq (_init_state ctx) (_init_state ctx).
Proof.
  intros w1 w2 Hw. unfold _init_state. rewrite <- Hw.
  destruct (self_state w1) eqn:E; simpl; split; congruence.
Qed.

Lemma buyer_adaptation_indep m :
  indep2 eq (personality_adaptation m) (personality_adaptation m).
Proof. unfold personality_adaptation. repeat istep fail. Qed.

Lemma buyer_record_indep a z :
  indep2 eq (_record_concession a z) (_record_concession a z).
Proof. unfold _record_concession. repeat istep fail. Qed.

Lemma buyer_concession_indep z :
  indep2 eq (_seller_made_concession z) (_seller_made_concession z).
Proof. unfold _seller_made_concession. repeat istep fail. Qed.

Lemma buyer_update_indep z :
  indep2 eq (_update_seller_estimates z) (_update_seller_estimates z).
Proof. unfold _update_seller_estimates. repeat istep fail. Qed.

Lemma buyer_closing_indep ctx :
  indep2 eq (_closing_target_from_estimate ctx) (_closing_target_from_estimate ctx).
Proof. unfold _closing_target_from_estimate. repeat istep fail. Qed.

End BuyerIndep.

Ltac buyer_indep :=
  first [ apply indep2_bind with (mid := any);
          [ apply buyer_format_indep | intros ? ? _; cbv beta ]
        | apply buyer_init_indep | apply buyer_adaptation_indep
        | apply buyer_record_indep | apply buyer_concession_indep
        | apply buyer_update_indep | apply buyer_closing_indep ].

Section BuyerIndepCalls.
Context {interp : Interpreter}.
Import YourBuyerAgent.

Theorem buyer_respond_indep ctx p m :
  indep same_decision (respond_to_seller_offer ctx p m).
Proof.
  apply indep_of_indep2. unfold respond_to_seller_offer, same_decision.
  cbv zeta. repeat istep buyer_indep.
Qed.

Theorem buyer_opening_indep ctx : indep same_offer (generate_opening_offer ctx).
Proof.
  apply indep_of_indep2. unfold generate_opening_offer, same_offer.
  cbv zeta. repeat istep buyer_indep.
Qed.

End BuyerIndepCalls.

Section SellerIndep.
Context {interp : Interpreter}.
Import YourSellerAgent.

Lemma seller_format_indep c1 c2 :
  indep2 any (_format_professional c1) (_format_professional c2).
Proof. unfold _format_professional. repeat istep fail. Qed.

Lemma seller_init_indep ctx : indep2 eq (_init_state ctx) (_init_state ctx).
Proof.
  intros w1 w2 Hw. unfold _init_state. rewrite <- Hw.
  destruct (self_state w1) eqn:E; simpl; split; congruence.
Qed.

Lemma seller_adaptation_indep m :
  indep2 eq (personality_adaptation m) (personality_adaptation m).
Proof. unfold personality_adaptation. repeat istep fail. Qed.

Lemma seller_record_indep a z :
  indep2 eq (_record_concession a z) (_record_concession a z).
Proof. unfold _record_concession. repeat istep fail. Qed.

Lemma seller_concession_indep z :
  indep2 eq (_buyer_made_concession z) (_buyer_made_concession z).
Proof. unfold _buyer_made_concession. repeat istep fail. Qed.

Lemma seller_update_indep z :
  indep2 eq (_update_buyer_estimates z) (_update_buyer_estimates z).
Proof. unfold _update_buyer_estimates. repeat istep fail. Qed.

Lemma seller_closing_indep ctx :
  indep2 eq (_closing_target_from_estimate ctx) (_closing_target_from_estimate ctx).
Proof. unfold _closing_target_from_estimate. repeat istep fail. Qed.

End SellerIndep.

Ltac seller_indep :=
  first [ apply indep2_bind with (mid := any);
          [ apply seller_format_indep | intros ? ? _; cbv beta ]
        | apply seller_init_indep | apply seller_adaptation_indep
        | apply seller_record_indep | apply seller_concession_indep
        | apply seller_update_indep | apply seller_closing_indep ].

Section SellerIndepCalls.
Context {interp : Interpreter}.
Import YourSellerAgent.

Theorem seller_respond_indep ctx p m :
  indep same_decision (respond_to_seller_offer ctx p m).
Proof.
  apply indep_of_indep2. unfold respond_to_seller_offer, same_decision.
  cbv zeta. repeat istep seller_indep.
Qed.

Theorem seller_opening_indep ctx : indep same_offer (generate_opening_offer ctx).
Proof.
  apply indep_of_indep2. unfold generate_opening_offer, same_offer.
  cbv zeta. repeat istep seller_indep.
Qed.

End SellerIndepCalls.

(** ** What a call keeps of the [_state] *)

Section StateKept.
Context {interp : Interpreter}.


Lemma buyer_init_creates ctx g :
  YourBuyerAgent._init_state ctx (World None g)
  = (Ok tt, World (Some YourBuyerAgent.fresh_state) g).
Proof. reflexivity. Qed.

Lemma seller_init_keeps ctx st g :
  YourSellerAgent._init_state ctx (World (Some st) g) = (Ok tt, World (Some st) g).
Proof. reflexivity. Qed.

Lemma seller_init_creates ctx g :
  YourSellerAgent._init_state ctx (World None g)
  = (Ok tt, World (Some YourSellerAgent.fresh_state) g).
Proof. reflexivity. Qed.



(** With no counterpart price the seller's call accepts nothing and
    leaves the history, the running maximum, the decayed estimate and the
    buyer's concessions as they were. *)
Theorem seller_absent_price_keeps_estimates ctx m st g :
  match YourSellerAgent.respond_to_seller_offer ctx None m (World (Some st) g) with
  | (Ok d, w') =>
      fst (fst d) = ONGOING /\
      exists st', self_state w' = Some st' /\
        YourSellerAgent.buyer_history st' = YourSellerAgent.buyer_history st /\
        YourSellerAgent.max_buyer_seen st' = YourSellerAgent.max_buyer_seen st /\
        YourSellerAgent.buyer_max_est st' = YourSellerAgent.buyer_max_est st /\
        of_buyer (YourSellerAgent.concessions st')
        = of_buyer (YourSellerAgent.concessions st)
  | (Raise e, _) => arith e
  end.
Proof.
  unfold YourSellerAgent.respond_to_seller_offer.
  unfold bind at 1. rewrite seller_init_keeps.
  set (inv := fun st' : YourSellerAgent.AgentState =>
         YourSellerAgent.buyer_history st' = YourSellerAgent.buyer_history st /\
         YourSellerAgent.max_buyer_seen st' = YourSellerAgent.max_buyer_seen st /\
         YourSellerAgent.buyer_max_est st' = YourSellerAgent.buyer_max_est st /\
         of_buyer (YourSellerAgent.concessions st')
         = of_buyer (YourSellerAgent.concessions st)).
  match goal with
  | |- match ?m _ with _ => _ end =>
      assert (Hm : triple inv m (fun d : DealStatus * Z * str => fst (fst d) = ONGOING))
  end.
  { cbv zeta. cbn [truthy if_some].
    unfold YourSellerAgent._record_concession, YourSellerAgent.personality_adaptation.
    repeat tstep ltac:(first [ apply seller_format_triple | apply seller_closing_triple ]). }
  specialize (Hm (World (Some st) g) st eq_refl
                (conj eq_refl (conj eq_refl (conj eq_refl eq_refl)))).
  match goal with
  | H : match ?x with _ => _ end |- match ?x with _ => _ end =>
      destruct x as [[a|e] w']; [exact H | exact H]
  end.
Qed.

End StateKept.

(** ** Calls that return

    Within the range of the doubles nothing overflows: the magnitudes of
    the integers and floats of a call are followed through the numeric
    kernel, then through the two agents. *)

(** *** Magnitudes through the rounding of a float *)

(** The binary digits of a mantissa are its size. *)
Lemma digits2_size p : digits2_pos p = Pos.size p.
Proof. induction p; simpl; congruence. Qed.

Lemma digits_lower p : 2 ^ (Zpos (digits2_pos p) - 1) <= Zpos p.
Proof.
  rewrite digits2_size.
  pose proof (Pos.size_le p) as H.
  apply Pos2Z.pos_le_pos in H. rewrite Pos2Z.inj_pow in H.
  replace (Zpos (Pos.size p)) with (Z.succ (Zpos (Pos.size p) - 1)) in H by lia.
  rewrite Z.pow_succ_r in H by lia.
  change (Zpos p~0) with (2 * Zpos p) in H. lia.
Qed.

Lemma pow2_le_inv a b : 0 < 2 ^ b -> 2 ^ a <= 2 ^ b -> a <= b.
Proof.
  intros Hb H.
  destruct (Z.le_gt_cases a b) as [|Hlt]; [assumption|].
  assert (0 <= b) by (destruct (Z.le_gt_cases 0 b); [assumption | rewrite Z.pow_neg_r in Hb; lia]).
  assert (2 ^ b < 2 ^ a) by (apply Z.pow_lt_mono_r; lia). lia.
Qed.

(** One right shift halves the mantissa, and halves the bound on what the
    record can be rounded up to. *)
Lemma shr_1_spec mrs j :
  0 <= shr_m mrs -> 1 <= j -> upper mrs <= 2 ^ j ->
  0 <= shr_m (shr_1 mrs) /\ upper (shr_1 mrs) <= 2 ^ (j - 1) /\
  shr_m (shr_1 mrs) = shr_m mrs / 2.
Proof.
  destruct mrs as [m r s]. unfold upper. simpl shr_m. simpl shr_r. simpl shr_s.
  intros Hm Hj Hu.
  replace j with (Z.succ (j - 1)) in Hu by lia.
  rewrite Z.pow_succ_r in Hu by lia.
  assert (0 < 2 ^ (j - 1)) by (apply Z.pow_pos_nonneg; lia).
  destruct m as [|[p|p|]|p]; try lia; cbn [shr_1 shr_m shr_r shr_s orb].
  - destruct (r || s); simpl; repeat split; lia.
  - change (Zpos p~1) with (2 * Zpos p + 1) in *.
    replace ((2 * Z.pos p + 1) / 2) with (Z.pos p)
      by (apply Z.div_unique with (r := 1); lia).
    destruct (r || s); repeat split; lia.
  - change (Zpos p~0) with (2 * Zpos p) in *.
    replace ((2 * Z.pos p) / 2) with (Z.pos p)
      by (apply Z.div_unique with (r := 0); lia).
    destruct (r || s); cbn [orb]; repeat split; lia.
  - change (1 / 2) with 0. repeat split; lia.
Qed.

(** [p] right shifts. *)
Lemma iter_pos_shr p : forall mrs j,
  0 <= shr_m mrs -> Zpos p <= j -> upper mrs <= 2 ^ j ->
  0 <= shr_m (iter_pos shr_1 p mrs) /\
  upper (iter_pos shr_1 p mrs) <= 2 ^ (j - Zpos p) /\
  shr_m (iter_pos shr_1 p mrs) = shr_m mrs / 2 ^ Zpos p.
Proof.
  induction p as [p IH | p IH |]; intros mrs j Hm Hj Hu; cbn [iter_pos].
  - change (Zpos p~1) with (2 * Zpos p + 1) in *.
    destruct (shr_1_spec mrs j Hm ltac:(lia) Hu) as (H1 & H2 & H3).
    destruct (IH _ (j - 1) H1 ltac:(lia) H2) as (H4 & H5 & H6).
    destruct (IH _ (j - 1 - Zpos p) H4 ltac:(lia) H5) as (H7 & H8 & H9).
    split; [assumption|]. split.
    + replace (j - (2 * Zpos p + 1)) with (j - 1 - Zpos p - Zpos p) by lia. assumption.
    + rewrite H9, H6, H3.
      rewrite !Z.div_div by (try apply Z.pow_pos_nonneg; lia).
      f_equal. replace (2 * Zpos p + 1) with (1 + Zpos p + Zpos p) by lia.
      rewrite !Z.pow_add_r by lia. change (2 ^ 1) with 2. lia.
  - change (Zpos p~0) with (2 * Zpos p) in *.
    destruct (IH _ j Hm ltac:(lia) Hu) as (H4 & H5 & H6).
    destruct (IH _ (j - Zpos p) H4 ltac:(lia) H5) as (H7 & H8 & H9).
    split; [assumption|]. split.
    + replace (j - 2 * Zpos p) with (j - Zpos p - Zpos p) by lia. assumption.
    + rewrite H9, H6.
      rewrite !Z.div_div by (try apply Z.pow_pos_nonneg; lia).
      f_equal. replace (2 * Zpos p) with (Zpos p + Zpos p) by lia.
      rewrite !Z.pow_add_r by lia. reflexivity.
  - destruct (shr_1_spec mrs j Hm Hj Hu) as (H1 & H2 & H3).
    repeat split; assumption.
Qed.

Lemma fexp_eq x : fexp prec emax x = Z.max (x - 53) (-1074).
Proof. reflexivity. Qed.

Lemma Zdigits2_lower m : 0 < m -> 2 ^ (Zdigits2 m - 1) <= m.
Proof. destruct m; try lia. intros _. apply digits_lower. Qed.

Lemma upper_of_loc_ge m l : m <= upper (shr_record_of_loc m l).
Proof. destruct l as [|[]]; unfold upper; simpl; lia. Qed.

(** A right shift to the exponent [fexp], or none. *)
Lemma shr_fexp_spec m e l k :
  0 <= m -> upper (shr_record_of_loc m l) <= 2 ^ (k - e) -> e <= k -> -1074 <= k ->
  forall r e', shr_fexp prec emax m e l = (r, e') ->
  0 <= shr_m r /\ upper r <= 2 ^ (k - e') /\ e' <= k /\
  ((e' = e /\ r = shr_record_of_loc m l) \/
   (e < e' /\ e' = fexp prec emax (Zdigits2 m + e) /\ shr_m r = m / 2 ^ (e' - e))).
Proof.
  intros Hm Hu Hek Hk r e'. unfold shr_fexp, shr.
  pose proof (upper_of_loc_ge m l) as Hml.
  assert (Hshr : shr_m (shr_record_of_loc m l) = m) by (destruct l as [|[]]; reflexivity).
  assert (Hf : fexp prec emax (Zdigits2 m + e) <= k).
  { rewrite fexp_eq. apply Z.max_lub; [|assumption].
    destruct (Z.eq_dec m 0) as [->|Hne]; [simpl; lia|].
    pose proof (Zdigits2_lower m ltac:(lia)) as Hd.
    assert (0 < 2 ^ (k - e)) by (apply Z.pow_pos_nonneg; lia).
    assert (Zdigits2 m - 1 <= k - e) by (apply pow2_le_inv; lia). lia. }
  destruct (fexp prec emax (Zdigits2 m + e) - e) as [|p|p] eqn:En;
    intros H; injection H as <- <-.
  - rewrite Hshr. repeat split; try assumption. left. split; reflexivity.
  - destruct (iter_pos_shr p (shr_record_of_loc m l) (k - e)) as (H1 & H2 & H3);
      [rewrite Hshr; assumption | lia | assumption |].
    split; [assumption|]. split.
    { replace (k - (e + Zpos p)) with (k - e - Zpos p) by lia. assumption. }
    split; [lia|]. right. split; [lia|]. split; [lia|].
    rewrite H3, Hshr. f_equal. f_equal. lia.
  - rewrite Hshr. repeat split; try assumption. left. split; reflexivity.
Qed.

(** Rounding to nearest even returns the mantissa or the next one, the
    latter only when the record is inexact. *)
Lemma round_nearest_even_bounds mrs :
  shr_m mrs <= round_nearest_even (shr_m mrs) (loc_of_shr_record mrs) <= upper mrs.
Proof.
  destruct mrs as [m [] []]; unfold upper; simpl; try lia.
  destruct (Z.even m); lia.
Qed.

(** A mantissa shifted right to a positive exponent keeps 53 bits. *)
Lemma shifted_lower m e e' :
  0 <= m -> e < e' -> e' = fexp prec emax (Zdigits2 m + e) -> 0 < e' ->
  2 ^ 52 <= m / 2 ^ (e' - e).
Proof.
  intros Hm He Hf Hpos. rewrite fexp_eq in Hf.
  assert (He' : e' = Zdigits2 m + e - 53) by lia.
  assert (0 < m).
  { destruct (Z.eq_dec m 0) as [->|]; [simpl in He'; lia | lia]. }
  pose proof (Zdigits2_lower m ltac:(lia)) as Hd.
  replace (e' - e) with (Zdigits2 m - 53) by lia.
  apply Z.div_le_lower_bound; [apply Z.pow_pos_nonneg; lia|].
  rewrite <- Z.pow_add_r by lia.
  replace (Zdigits2 m - 53 + 52) with (Zdigits2 m - 1) by lia. assumption.
Qed.

(** The rounding of a number of magnitude at most [2 ^ k], [k] at most
    1023, does not overflow: the result is finite and of magnitude at most
    [2 ^ k]. *)
Lemma binary_round_aux_fin s mx ex lx k :
  0 <= mx -> (0 < ex -> 2 ^ 52 <= mx) ->
  upper (shr_record_of_loc mx lx) <= 2 ^ (k - ex) -> ex <= k ->
  -1074 <= k <= 1023 ->
  fin k (binary_round_aux prec emax s mx ex lx).
Proof.
  intros Hm HI Hu Hek Hk. unfold binary_round_aux.
  destruct (shr_fexp prec emax mx ex lx) as [r1 e1] eqn:E1.
  destruct (shr_fexp_spec mx ex lx k Hm Hu Hek ltac:(lia) r1 e1 E1)
    as (H1 & H2 & H3 & Hshape1).
  pose proof (round_nearest_even_bounds r1) as Hround.
  set (m2 := round_nearest_even (shr_m r1) (loc_of_shr_record r1)) in *.
  destruct (shr_fexp prec emax m2 e1 loc_Exact) as [r2 e2] eqn:E2.
  destruct (shr_fexp_spec m2 e1 loc_Exact k ltac:(lia)
              ltac:(unfold upper; simpl; lia) H3 ltac:(lia) r2 e2 E2)
    as (H4 & H5 & H6 & Hshape2).
  assert (Hle : shr_m r2 <= 2 ^ (k - e2)).
  { revert H5. unfold upper. destruct (shr_r r2 || shr_s r2); lia. }
  assert (HI2 : 0 < e2 -> 2 ^ 52 <= shr_m r2).
  { intros Hpos. destruct Hshape2 as [[-> ->] | (Hlt & Hf & ->)].
    - simpl. destruct Hshape1 as [[-> ->] | (Hlt & Hf & Hr)].
      + assert (shr_m (shr_record_of_loc mx lx) = mx) as Hs
          by (destruct lx as [|[]]; reflexivity).
        rewrite Hs in Hround. specialize (HI Hpos). lia.
      + pose proof (shifted_lower mx ex e1 Hm Hlt Hf Hpos). lia.
    - apply shifted_lower; (assumption || lia). }
  destruct (shr_m r2) as [|m|m] eqn:Em; simpl; try lia; try exact I.
  assert (e2 <= 971).
  { destruct (Z.le_gt_cases e2 971) as [|Hgt]; [assumption|].
    specialize (HI2 ltac:(lia)).
    assert (2 ^ (k - e2) <= 2 ^ 51) by (apply Z.pow_le_mono_r; lia).
    assert (2 ^ 51 < 2 ^ 52) by (apply Z.pow_lt_mono_r; lia). lia. }
  destruct (Z.leb_spec e2 971); [|lia].
  split; assumption.
Qed.

Lemma fin_mono i j x : i <= j -> fin i x -> fin j x.
Proof.
  intros Hij. destruct x as [| | |s m e]; simpl; try tauto.
  intros [HI Hle]. split; [assumption|].
  assert (0 <= i - e).
  { destruct (Z.le_gt_cases 0 (i - e)); [assumption|].
    rewrite Z.pow_neg_r in Hle; lia. }
  assert (2 ^ (i - e) <= 2 ^ (j - e)) by (apply Z.pow_le_mono_r; lia). lia.
Qed.

(** The left shift that aligns a mantissa keeps the value. *)
Lemma iter_xO m d : Zpos (Pos.iter xO m d) = Zpos m * 2 ^ Zpos d.
Proof.
  revert m. induction d as [d IH | d IH |]; intros m; cbn [Pos.iter].
  - change (Zpos d~1) with (2 * Zpos d + 1).
    change (Zpos (Pos.iter xO (Pos.iter xO m d) d)~0)
      with (2 * Zpos (Pos.iter xO (Pos.iter xO m d) d)).
    rewrite !IH. replace (2 * Zpos d + 1) with (Zpos d + Zpos d + 1) by lia.
    rewrite !Z.pow_add_r by lia. change (2 ^ 1) with 2. lia.
  - change (Zpos d~0) with (2 * Zpos d).
    rewrite !IH. replace (2 * Zpos d) with (Zpos d + Zpos d) by lia.
    rewrite !Z.pow_add_r by lia. lia.
  - change (Zpos m~0) with (2 * Zpos m). change (2 ^ 1) with 2. lia.
Qed.

Lemma shl_align_spec mx ex ex' :
  forall mz ez, shl_align mx ex ex' = (mz, ez) ->
  ez <= ex /\ Zpos mz = Zpos mx * 2 ^ (ex - ez) /\
  ((ez = ex' /\ ex' < ex) \/ (ez = ex /\ ex <= ex')).
Proof.
  intros mz ez. unfold shl_align.
  destruct (ex' - ex) as [|d|d] eqn:Ed; intros H; injection H as <- <-.
  - rewrite Z.sub_diag. simpl. split; [lia|]. split; [lia|]. right. lia.
  - rewrite Z.sub_diag. simpl. split; [lia|]. split; [lia|]. right. lia.
  - split; [lia|]. split.
    + rewrite iter_xO. f_equal. f_equal. lia.
    + left. lia.
Qed.

Lemma pow2_split a b : 0 <= a -> 0 <= b -> 2 ^ (a + b) = 2 ^ a * 2 ^ b.
Proof. intros. apply Z.pow_add_r; assumption. Qed.

Lemma pos_le_pow2_nonneg (m : positive) j : Zpos m <= 2 ^ j -> 0 <= j.
Proof.
  intros H. destruct (Z.le_gt_cases 0 j); [assumption|].
  rewrite Z.pow_neg_r in H; lia.
Qed.

Lemma binary_round_fin s mx ex k :
  Zpos mx <= 2 ^ (k - ex) -> -1074 <= k <= 1023 ->
  fin k (binary_round prec emax s mx ex).
Proof.
  intros Hle Hk. unfold binary_round.
  destruct (shl_align mx ex (fexp prec emax (Zpos (digits2_pos mx) + ex)))
    as [mz ez] eqn:E.
  destruct (shl_align_spec _ _ _ _ _ E) as (H1 & H2 & H3).
  pose proof (pos_le_pow2_nonneg _ _ Hle) as Hnn.
  pose proof (digits_lower mx) as Hd.
  assert (0 < Zpos (digits2_pos mx)) by lia.
  rewrite fexp_eq in H3.
  apply binary_round_aux_fin; try lia.
  - intros Hpos. rewrite H2. destruct H3 as [[H3 H3'] | [H3 H3']].
    + assert (ez = Zpos (digits2_pos mx) + ex - 53) by lia.
      replace (ex - ez) with (53 - Zpos (digits2_pos mx)) by lia.
      assert (0 <= 53 - Zpos (digits2_pos mx)) by lia.
      replace 52 with ((Zpos (digits2_pos mx) - 1) + (53 - Zpos (digits2_pos mx))) by lia.
      rewrite pow2_split by lia.
      apply Z.mul_le_mono_nonneg_r; [apply Z.pow_nonneg; lia | assumption].
    + subst ez. rewrite Z.sub_diag, Z.mul_1_r.
      assert (53 <= Zpos (digits2_pos mx)) by lia.
      assert (2 ^ 52 <= 2 ^ (Zpos (digits2_pos mx) - 1)) by (apply Z.pow_le_mono_r; lia).
      lia.
  - unfold upper. simpl. rewrite H2.
    replace (k - ez) with ((k - ex) + (ex - ez)) by lia.
    rewrite pow2_split by lia.
    apply Z.mul_le_mono_nonneg_r; [apply Z.pow_nonneg; lia | assumption].
Qed.

Lemma binary_normalize_fin m e k :
  Z.abs m <= 2 ^ (k - e) -> -1074 <= k <= 1023 ->
  fin k (binary_normalize prec emax m e false).
Proof.
  intros Hle Hk. destruct m as [|p|p]; simpl; [exact I| |];
    apply binary_round_fin; assumption.
Qed.

(** [float(z)], [x * y], [x + y], [x - y], [int(x)], [int(max(a, x))] and
    [a / b] within the range. *)
Lemma float_of_int_fin z k :
  Z.abs z <= 2 ^ k -> 0 <= k <= 1023 ->
  exists x, Py.float_of_int z = Ok x /\ fin k x.
Proof.
  intros Hle Hk. unfold Py.float_of_int.
  pose proof (binary_normalize_fin z 0 k) as H.
  rewrite Z.sub_0_r in H. specialize (H Hle ltac:(lia)).
  destruct (binary_normalize prec emax z 0 false) as [| | |s m e] eqn:E;
    simpl in H; try contradiction; eexists; split; try reflexivity; simpl; assumption.
Qed.

Lemma fmul_fin i j x y :
  fin i x -> fin j y -> -1074 <= i + j <= 1023 -> fin (i + j) (Py.fmul x y).
Proof.
  destruct x as [sx| | |sx mx ex]; destruct y as [sy| | |sy my ey];
    unfold Py.fmul, SF64mul, SFmul, fin; try tauto.
  intros [HIx Hx] [HIy Hy] Hk.
  pose proof (pos_le_pow2_nonneg _ _ Hx). pose proof (pos_le_pow2_nonneg _ _ Hy).
  apply binary_round_aux_fin; [lia | | | lia | lia].
  - intros Hpos. rewrite Pos2Z.inj_mul.
    destruct (Z.lt_ge_cases 0 ex) as [Hex|Hex].
    + specialize (HIx Hex). nia.
    + specialize (HIy ltac:(lia)). nia.
  - unfold upper. simpl. rewrite Pos2Z.inj_mul.
    replace (i + j - (ex + ey)) with ((i - ex) + (j - ey)) by lia.
    rewrite pow2_split by lia. apply Z.mul_le_mono_nonneg; lia.
Qed.

Lemma shl_align_fst mx ex ez :
  ez <= ex -> Zpos (fst (shl_align mx ex ez)) = Zpos mx * 2 ^ (ex - ez).
Proof.
  intros Hle. destruct (shl_align mx ex ez) as [mz ez'] eqn:E.
  destruct (shl_align_spec _ _ _ _ _ E) as (H1 & H2 & [[-> H3] | [-> H3]]); simpl.
  - assumption.
  - rewrite H2. replace ez with ex by lia. reflexivity.
Qed.

Lemma aligned_le m e ez k :
  Zpos m <= 2 ^ (k - e) -> ez <= e -> Zpos m * 2 ^ (e - ez) <= 2 ^ (k - ez).
Proof.
  intros Hle He. pose proof (pos_le_pow2_nonneg _ _ Hle).
  replace (k - ez) with ((k - e) + (e - ez)) by lia.
  rewrite pow2_split by lia.
  apply Z.mul_le_mono_nonneg_r; [apply Z.pow_nonneg; lia | assumption].
Qed.

Lemma pow2_double k : 0 <= k -> 2 ^ (k + 1) = 2 * 2 ^ k.
Proof. intros. rewrite Z.pow_add_r by lia. change (2 ^ 1) with 2. lia. Qed.

Lemma sum_fin sx mx ex sy my ey k (f : Z -> Z -> Z) :
  (forall a b, Z.abs (f a b) <= Z.abs a + Z.abs b) ->
  fin k (S754_finite sx mx ex) -> fin k (S754_finite sy my ey) ->
  -1074 <= k + 1 <= 1023 ->
  fin (k + 1)
    (binary_normalize prec emax
       (f (cond_Zopp sx (Zpos (fst (shl_align mx ex (Z.min ex ey)))))
          (cond_Zopp sy (Zpos (fst (shl_align my ey (Z.min ex ey))))))
       (Z.min ex ey) false).
Proof.
  intros Hf [_ Hx] [_ Hy] Hk.
  apply binary_normalize_fin; [|assumption].
  rewrite !shl_align_fst by lia.
  pose proof (aligned_le _ _ (Z.min ex ey) _ Hx ltac:(lia)) as Hx'.
  pose proof (aligned_le _ _ (Z.min ex ey) _ Hy ltac:(lia)) as Hy'.
  pose proof (pos_le_pow2_nonneg _ _ Hx).
  replace (k + 1 - Z.min ex ey) with ((k - Z.min ex ey) + 1) by lia.
  rewrite pow2_double by lia.
  match goal with |- Z.abs (f ?a ?b) <= _ => specialize (Hf a b) end.
  assert (0 < 2 ^ (ex - Z.min ex ey)) by (apply Z.pow_pos_nonneg; lia).
  assert (0 < 2 ^ (ey - Z.min ex ey)) by (apply Z.pow_pos_nonneg; lia).
  destruct sx, sy; unfold cond_Zopp in *; nia.
Qed.

Lemma fadd_fin k x y :
  fin k x -> fin k y -> -1074 <= k + 1 <= 1023 -> fin (k + 1) (Py.fadd x y).
Proof.
  intros Hx Hy Hk.
  destruct x as [sx| | |sx mx ex]; destruct y as [sy| | |sy my ey];
    try contradiction.
  - destruct sx, sy; exact I.
  - apply fin_mono with (i := k); [lia | exact Hy].
  - apply fin_mono with (i := k); [lia | exact Hx].
  - apply (sum_fin sx mx ex sy my ey k Z.add); (assumption || intros; lia).
Qed.

Lemma fsub_fin k x y :
  fin k x -> fin k y -> -1074 <= k + 1 <= 1023 -> fin (k + 1) (Py.fsub x y).
Proof.
  intros Hx Hy Hk.
  destruct x as [sx| | |sx mx ex]; destruct y as [sy| | |sy my ey];
    try contradiction.
  - destruct sx, sy; exact I.
  - apply fin_mono with (i := k); [lia | exact Hy].
  - apply fin_mono with (i := k); [lia | exact Hx].
  - apply (sum_fin sx mx ex sy my ey k Z.sub); (assumption || intros; lia).
Qed.

Lemma int_of_float_fin k x :
  fin k x -> 0 <= k -> exists z, Py.int_of_float x = Ok z /\ Z.abs z <= 2 ^ k.
Proof.
  intros Hx Hk. destruct x as [s| | |s m e]; try contradiction.
  - exists 0. split; [reflexivity|]. simpl. apply Z.pow_nonneg. lia.
  - destruct Hx as [_ Hle]. pose proof (pos_le_pow2_nonneg _ _ Hle).
    unfold Py.int_of_float. eexists. split; [reflexivity|].
    assert (Z.abs (if 0 <=? e then Z.shiftl (Zpos m) e else Z.shiftr (Zpos m) (- e))
            <= 2 ^ k) as Ha.
    { destruct (Z.leb_spec 0 e).
      - rewrite Z.shiftl_mul_pow2 by lia.
        replace k with ((k - e) + e) at 1 by lia. rewrite pow2_split by lia.
        assert (0 < 2 ^ e) by (apply Z.pow_pos_nonneg; lia).
        rewrite Z.abs_eq by nia. nia.
      - rewrite Z.shiftr_div_pow2 by lia.
        assert (0 < 2 ^ (- e)) by (apply Z.pow_pos_nonneg; lia).
        assert (0 <= Zpos m / 2 ^ (- e)) by (apply Z.div_pos; lia).
        rewrite Z.abs_eq by assumption.
        apply Z.div_le_upper_bound; [assumption|].
        rewrite <- pow2_split by lia. replace (- e + k) with (k - e) by lia.
        assumption. }
    destruct s; lia.
Qed.

Lemma int_max_int_float_fin k a x :
  fin k x -> Z.abs a <= 2 ^ k -> 0 <= k ->
  exists z, Py.int_max_int_float a x = Ok z /\ Z.abs z <= 2 ^ k.
Proof.
  intros Hx Ha Hk. unfold Py.int_max_int_float.
  destruct (Py.int_lt_float a x).
  - apply int_of_float_fin; assumption.
  - exists a. split; [reflexivity | assumption].
Qed.

Lemma upper_of_loc_le m l : upper (shr_record_of_loc m l) <= m + 1.
Proof. destruct l as [|[]]; unfold upper; simpl; lia. Qed.

Lemma true_div_fin a b k :
  Z.abs a <= 2 ^ k -> b <> 0 -> 0 <= k <= 1022 ->
  exists x, Py.true_div a b = Ok x /\ fin (k + 1) x.
Proof.
  intros Ha Hb Hk. unfold Py.true_div.
  destruct (Z.eqb_spec b 0) as [|_]; [contradiction|].
  destruct (Z.eqb_spec a 0) as [|Hne].
  { eexists. split; [reflexivity | exact I]. }
  unfold SFdiv_core_binary.
  set (e' := Z.min (fexp prec emax (Zdigits2 (Z.abs a) + 0 - (Zdigits2 (Z.abs b) + 0))) (0 - 0)).
  assert (He' : e' <= 0) by (subst e'; apply Z.le_min_r).
  set (m' := match 0 - 0 - e' with
             | 0 => Z.abs a
             | Zpos _ => Z.shiftl (Z.abs a) (0 - 0 - e')
             | Zneg _ => 0
             end).
  assert (Hm' : m' = Z.abs a * 2 ^ (- e')).
  { subst m'. replace (0 - 0 - e') with (- e') by lia.
    destruct (- e') as [|p|p] eqn:E; try lia.
    apply Z.shiftl_mul_pow2. lia. }
  pose proof (Z_div_mod m' (Z.abs b) ltac:(lia)) as Hdiv.
  destruct (Z.div_eucl m' (Z.abs b)) as [q r].
  destruct Hdiv as [Heq Hr].
  assert (0 < 2 ^ (- e')) by (apply Z.pow_pos_nonneg; lia).
  assert (0 <= q) by nia.
  assert (q <= m') by nia.
  pose proof (binary_round_aux_fin (xorb (a <? 0) (b <? 0)) q e'
                (new_location (Z.abs b) r) (k + 1)) as Hround.
  assert (Hfin : fin (k + 1)
            (binary_round_aux prec emax (xorb (a <? 0) (b <? 0)) q e'
               (new_location (Z.abs b) r))).
  { apply Hround; try lia.
    pose proof (upper_of_loc_le q (new_location (Z.abs b) r)).
    replace (k + 1 - e') with ((k + - e') + 1) by lia.
    rewrite pow2_double by lia. rewrite pow2_split by lia.
    assert (0 < 2 ^ k) by (apply Z.pow_pos_nonneg; lia). nia. }
  destruct (binary_round_aux prec emax (xorb (a <? 0) (b <? 0)) q e'
              (new_location (Z.abs b) r)) as [| | |s m e];
    try contradiction; eexists; (split; [reflexivity | assumption]).
Qed.


(** *** Rules of [returns] *)

Lemma finb_fin k x : finb k x = true -> fin k x.
Proof.
  destruct x as [| | |s m e]; simpl; try discriminate; [trivial|].
  intros H. apply andb_prop in H. destruct H as [H1 H2].
  apply Z.leb_le in H2. split; [|assumption].
  intros Hpos. apply orb_prop in H1. destruct H1 as [H1|H1].
  - apply Z.leb_le in H1. lia.
  - apply Z.leb_le in H1. assumption.
Qed.

(** A float constant of the source, by evaluation. *)
Ltac const := apply finb_fin; vm_compute; reflexivity.

Section ReturnRules.
Context {S : Type}.

Lemma returns_ret {A : Type} (pre : S -> Prop) (a : A) (post : A -> S -> Prop) :
  (forall st, pre st -> post a st) -> returns pre (ret a) post.
Proof. intros H w st Hw Hst. exists a, w, st. auto. Qed.

Lemma returns_bind {A B : Type} (pre : S -> Prop) (m : M S A) (k : A -> M S B)
    (mid : A -> S -> Prop) (post : B -> S -> Prop) :
  returns pre m mid -> (forall a, returns (mid a) (k a) post) ->
  returns pre (bind m k) post.
Proof.
  intros Hm Hk w st Hw Hst. unfold bind.
  destruct (Hm w st Hw Hst) as (a & w' & st' & -> & Hw' & Ha).
  exact (Hk a w' st' Hw' Ha).
Qed.

Lemma returns_weaken {A : Type} (pre pre' : S -> Prop) (m : M S A)
    (post post' : A -> S -> Prop) :
  returns pre m post -> (forall st, pre' st -> pre st) ->
  (forall a st, post a st -> post' a st) -> returns pre' m post'.
Proof.
  intros Hm Hpre Hpost w st Hw Hst.
  destruct (Hm w st Hw (Hpre st Hst)) as (a & w' & st' & E & Hw' & Ha).
  exists a, w', st'. auto.
Qed.

Lemma returns_bind_same {A B : Type} (pre : S -> Prop) (m : M S A) (k : A -> M S B)
    (post : B -> S -> Prop) :
  returns pre m (fun _ st => pre st) -> (forall a, returns pre (k a) post) ->
  returns pre (bind m k) post.
Proof. intros Hm Hk. eapply returns_bind; [exact Hm | exact Hk]. Qed.

Lemma returns_lift {A : Type} (pre : S -> Prop) (r : result A) (a : A)
    (post : A -> S -> Prop) :
  r = Ok a -> (forall st, pre st -> post a st) -> returns pre (lift r) post.
Proof. intros -> H w st Hw Hst. exists a, w, st. auto. Qed.

Lemma returns_bind_lift {A B : Type} (pre : S -> Prop) (r : result A) (a : A)
    (k : A -> M S B) (post : B -> S -> Prop) :
  r = Ok a -> returns pre (k a) post -> returns pre (bind (lift r) k) post.
Proof.
  intros -> Hk w st Hw Hst. unfold bind, lift. exact (Hk w st Hw Hst).
Qed.

Lemma returns_bind_ret {A B : Type} (pre : S -> Prop) (x : A)
    (k : A -> M S B) (post : B -> S -> Prop) :
  returns pre (k x) post -> returns pre (bind (ret x) k) post.
Proof. intros Hk w st Hw Hst. unfold bind, ret. exact (Hk w st Hw Hst). Qed.

Lemma returns_bind_get {B : Type} (pre : S -> Prop) (k : S -> M S B)
    (post : B -> S -> Prop) :
  (forall st, pre st -> returns pre (k st) post) ->
  returns pre (bind get_state k) post.
Proof.
  intros Hk w st Hw Hst. unfold bind, get_state. rewrite Hw.
  exact (Hk st Hst w st Hw Hst).
Qed.

Lemma returns_modify (pre : S -> Prop) (f : S -> S) (post : unit -> S -> Prop) :
  (forall st, pre st -> post tt (f st)) -> returns pre (modify_state f) post.
Proof.
  intros Hf w st Hw Hst. unfold modify_state. rewrite Hw.
  exists tt, (World (Some (f st)) (random w)), (f st). auto.
Qed.

Lemma returns_bind_modify {B : Type} (pre pre' : S -> Prop) (f : S -> S)
    (k : unit -> M S B) (post : B -> S -> Prop) :
  (forall st, pre st -> pre' (f st)) -> returns pre' (k tt) post ->
  returns pre (bind (modify_state f) k) post.
Proof.
  intros Hf Hk. eapply returns_bind.
  - apply returns_modify with (post := fun _ st => pre' st). exact Hf.
  - intros []. exact Hk.
Qed.

Lemma returns_choice {A : Type} (pre : S -> Prop) (seq : list A) :
  seq <> [] -> returns pre (random_choice seq) (fun _ st => pre st).
Proof.
  intros Hne w st Hw Hst. unfold random_choice. simpl.
  destruct (nth_error seq (draws (random w) (cursor (random w)) mod List.length seq)%nat)
    eqn:E.
  - eexists _, _, st. split; [reflexivity|]. simpl. auto.
  - apply nth_error_None in E.
    assert (H : List.length seq <> 0%nat) by (destruct seq; [contradiction | discriminate]).
    pose proof (Nat.mod_upper_bound (draws (random w) (cursor (random w))) (List.length seq) H).
    lia.
Qed.

Lemma returns_pure {A : Type} (P : Prop) (pre : S -> Prop) (m : M S A)
    (post : A -> S -> Prop) :
  (P -> returns pre m post) -> returns (fun st => P /\ pre st) m post.
Proof. intros H w st Hw [HP Hst]. exact (H HP w st Hw Hst). Qed.

Lemma returns_if_some {A B : Type} (pre : S -> Prop) (o : option A) (c : A -> bool)
    (t : A -> M S B) (e : M S B) (post : B -> S -> Prop) :
  (forall a, o = Some a -> returns pre (t a) post) -> returns pre e post ->
  returns pre (if_some o c t e) post.
Proof.
  intros Ht He. unfold if_some. destruct o as [a|]; [|exact He].
  destruct (c a); [apply Ht; reflexivity | exact He].
Qed.

End ReturnRules.

(** One step of a [returns] goal, on the shape of the computation. *)
Ltac rstep :=
  lazymatch goal with
  | |- returns _ (bind (ret _) _) _ => apply returns_bind_ret; cbv beta
  | |- returns _ (bind get_state _) _ => apply returns_bind_get; intros ? ?; cbv beta
  | |- returns _ (ret _) _ => apply returns_ret; intros; auto
  | |- returns _ (if_some _ _ _ _) _ => unfold if_some
  | |- returns _ (if ?b then _ else _) _ => destruct b eqn:?
  | |- returns _ (match ?x with _ => _ end) _ => destruct x eqn:?
  end.

Lemma py_index_in {A : Type} (l : list A) (i : Z) (x : A) :
  py_index l i = Ok x -> In x l.
Proof.
  unfold py_index. destruct (_ && _); [|discriminate].
  destruct (nth_error l _) eqn:E; [|discriminate].
  intros H. injection H as <-. eapply nth_error_In. exact E.
Qed.

Lemma truthy_some o v : truthy o = Some v -> o = Some v.
Proof. destruct o as [[| |]|]; simpl; congruence. Qed.

(** *** Integers of magnitude [2 ^ (K + n)] through the kernel *)

(** The powers [2 ^ (K + c)] are multiples of [2 ^ K]: bounds on integers
    are then linear. *)
Section Bounds.
Variable K : Z.
Hypothesis HK : 10 <= K <= 1000.

Lemma pow_K_plus c : 0 <= c -> 2 ^ (K + c) = 2 ^ c * 2 ^ K.
Proof using HK. intros. rewrite Z.pow_add_r by lia. lia. Qed.

Lemma pow_K_big : 1024 <= 2 ^ K.
Proof using HK.
  change 1024 with (2 ^ 10). apply Z.pow_le_mono_r; lia.
Qed.

End Bounds.

(** Bounds on integers built with [+], [-], [min] and [max]. *)
Ltac smalls K :=
  unfold small in *;
  repeat match goal with
    | H : context [2 ^ (K + ?c)] |- _ => rewrite (pow_K_plus K ltac:(lia) c) in H by lia
    | |- context [2 ^ (K + ?c)] => rewrite (pow_K_plus K ltac:(lia) c) by lia
    end;
  pose proof (pow_K_big K ltac:(lia));
  generalize dependent (2 ^ K); intros; lia.

(** The progress [(r - 1) / 9.0] of a normal round raises nothing. *)
Lemma progress_ok r : 1 <= r <= 8 -> exists x, Py.int_div_float (r - 1) 9.0 = Ok x.
Proof.
  intros Hr.
  assert (r = 1 \/ r = 2 \/ r = 3 \/ r = 4 \/ r = 5 \/ r = 6 \/ r = 7 \/ r = 8) as H by lia.
  repeat (destruct H as [-> | H]); try subst r; eexists; vm_compute; reflexivity.
Qed.

Section Kernel.
Variable K : Z.
Hypothesis HK : 10 <= K <= 1000.

Lemma small_K0 z : small K z <-> small (K + 0) z.
Proof using. rewrite Z.add_0_r. reflexivity. Qed.

Lemma float_of_int_small z n :
  small (K + n) z -> 0 <= n <= 23 ->
  exists x, Py.float_of_int z = Ok x /\ fin (K + n) x.
Proof using HK. intros Hz Hn. apply float_of_int_fin; [apply Z.abs_le; exact Hz | lia]. Qed.

Lemma int_mul_float_small z c n n' :
  n' = n + 1 -> small (K + n) z -> fin 1 c -> 0 <= n <= 20 ->
  exists x, Py.int_mul_float z c = Ok x /\ fin (K + n') x.
Proof using HK.
  intros -> Hz Hc Hn. unfold Py.int_mul_float.
  destruct (float_of_int_small z n Hz ltac:(lia)) as (x & -> & Hx). simpl.
  eexists. split; [reflexivity|].
  replace (K + (n + 1)) with ((K + n) + 1) by lia.
  apply fmul_fin; (assumption || lia).
Qed.

Lemma float_mul_int_small z c n n' :
  n' = n + 1 -> small (K + n) z -> fin 1 c -> 0 <= n <= 20 ->
  exists x, Py.float_mul_int c z = Ok x /\ fin (K + n') x.
Proof using HK.
  intros -> Hz Hc Hn. unfold Py.float_mul_int.
  destruct (float_of_int_small z n Hz ltac:(lia)) as (x & -> & Hx). simpl.
  eexists. split; [reflexivity|].
  replace (K + (n + 1)) with (1 + (K + n)) by lia.
  apply fmul_fin; (assumption || lia).
Qed.

Lemma int_of_float_small x n :
  fin (K + n) x -> 0 <= n <= 23 -> exists z, Py.int_of_float x = Ok z /\ small (K + n) z.
Proof using HK.
  intros Hx Hn. destruct (int_of_float_fin (K + n) x Hx ltac:(lia)) as (z & E & H).
  exists z. split; [exact E | apply Z.abs_le; exact H].
Qed.

Lemma scale_small z c n n' :
  n' = n + 1 -> small (K + n) z -> fin 1 c -> 0 <= n <= 20 ->
  exists r, Py.scale z c = Ok r /\ small (K + n') r.
Proof using HK.
  intros -> Hz Hc Hn. unfold Py.scale.
  destruct (int_mul_float_small z c n (n + 1) eq_refl Hz Hc Hn) as (x & -> & Hx). simpl.
  apply int_of_float_small; [assumption | lia].
Qed.

Lemma int_max_int_float_small a x n :
  small (K + n) a -> fin (K + n) x -> 0 <= n <= 23 ->
  exists z, Py.int_max_int_float a x = Ok z /\ small (K + n) z.
Proof using HK.
  intros Ha Hx Hn.
  destruct (int_max_int_float_fin (K + n) a x Hx ltac:(apply Z.abs_le; exact Ha) ltac:(lia))
    as (z & E & H).
  exists z. split; [exact E | apply Z.abs_le; exact H].
Qed.

Lemma true_div_small a b n n' :
  n' = n + 1 -> small (K + n) a -> b <> 0 -> 0 <= n <= 20 ->
  exists x, Py.true_div a b = Ok x /\ fin (K + n') x.
Proof using HK.
  intros -> Ha Hb Hn. replace (K + (n + 1)) with ((K + n) + 1) by lia.
  apply true_div_fin; [apply Z.abs_le; exact Ha | assumption | lia].
Qed.

Lemma fin_K_mono x n m : fin (K + n) x -> n <= m -> fin (K + m) x.
Proof using. intros H Hnm. apply fin_mono with (i := K + n); [lia | assumption]. Qed.

End Kernel.

(** *** The buyer's call returns *)

Section BuyerMagnitudes.
Import YourBuyerAgent.
Context {interp : Interpreter}.
Variable K : Z.
Hypothesis HK : 10 <= K <= 1000.
Hypothesis Hpow : pow_on_progress interp.

(** The pricing helpers return, and what they return is small. *)
Lemma buyer_opening_small ctx :
  context_small K ctx -> exists v, _opening_offer_number ctx = Ok v /\ small (K + 1) v.
Proof using HK.
  intros (Hb & Hm & _). unfold _opening_offer_number.
  apply small_K0 in Hb, Hm.
  destruct (scale_small K HK _ AGG_OPEN_BUDGET_RATIO 0 1 eq_refl Hb ltac:(const) ltac:(lia))
    as (a & -> & Ha).
  destruct (scale_small K HK _ MARKET_OPEN_RATIO 0 1 eq_refl Hm ltac:(const) ltac:(lia))
    as (b & -> & Hb').
  cbn [bindR]. eexists. split; [reflexivity|]. unfold MIN_STEP. smalls K.
Qed.

Lemma buyer_walkaway_small ctx :
  context_small K ctx -> exists v, _walkaway_cap ctx = Ok v /\ small (K + 1) v.
Proof using HK.
  intros (Hb & Hm & _). unfold _walkaway_cap.
  apply small_K0 in Hb, Hm.
  destruct (scale_small K HK _ WALKAWAY_MARKET_RATIO 0 1 eq_refl Hm ltac:(const) ltac:(lia))
    as (a & -> & Ha).
  cbn [bindR]. eexists. split; [reflexivity|]. smalls K.
Qed.

Lemma buyer_dynamic_target_ok r o w :
  1 <= r <= 8 -> small (K + 1) o -> small (K + 1) w ->
  exists v, dynamic_target r o w = Ok v.
Proof using HK Hpow.
  intros Hr Ho Hw. unfold dynamic_target.
  destruct (progress_ok r Hr) as (x & Ex). rewrite Ex. cbn [bindR].
  pose proof (Hpow r x Hr Ex) as Hp.
  assert (Hd : small (K + 2) (w - o)) by smalls K.
  unfold Py.int_mul_float, Py.int_add_float.
  destruct (float_of_int_small K HK _ 2 Hd ltac:(lia)) as (d & -> & Hfd). cbn [bindR].
  destruct (float_of_int_small K HK _ 1 Ho ltac:(lia)) as (fo & -> & Hfo). cbn [bindR].
  assert (Hprod : fin (K + 2) (Py.fmul d (fpow x 0.9))).
  { replace (K + 2) with ((K + 2) + 0) by lia. apply fmul_fin; (assumption || lia). }
  assert (Hsum : fin (K + 3) (Py.fadd fo (Py.fmul d (fpow x 0.9)))).
  { replace (K + 3) with ((K + 2) + 1) by lia.
    apply fadd_fin; [eapply fin_K_mono; [eassumption | lia] | assumption | lia]. }
  destruct (int_of_float_small K HK _ 3 Hsum ltac:(lia)) as (v & -> & _).
  eexists. reflexivity.
Qed.

Lemma buyer_gap_step_small market r gap last_my :
  small K market -> small (K + 2) gap ->
  exists v, gap_step market r gap last_my = Ok v /\ small (K + 4) v.
Proof using HK.
  intros Hm Hg. unfold gap_step. apply small_K0 in Hm.
  destruct (int_mul_float_small K HK market 0.06 0 1 eq_refl Hm ltac:(const) ltac:(lia))
    as (x1 & -> & Hx1). cbn [bindR].
  destruct (int_max_int_float_small K HK MIN_STEP x1 1 ltac:(unfold MIN_STEP; smalls K)
              Hx1 ltac:(lia)) as (base_far & -> & Hfar). cbn [bindR].
  destruct (int_mul_float_small K HK market 0.02 0 1 eq_refl Hm ltac:(const) ltac:(lia))
    as (x2 & -> & Hx2). cbn [bindR].
  destruct (int_max_int_float_small K HK MIN_STEP x2 1 ltac:(unfold MIN_STEP; smalls K)
              Hx2 ltac:(lia)) as (base_close & -> & Hclose). cbn [bindR].
  destruct (true_div_small K HK gap (Z.max 1 last_my) 2 3 eq_refl Hg ltac:(lia) ltac:(lia))
    as (pct & -> & _). cbn [bindR].
  assert (Hsum : small (K + 2) (base_far + base_close)) by smalls K.
  destruct (true_div_small K HK (base_far + base_close) 2 2 3 eq_refl Hsum
              ltac:(lia) ltac:(lia)) as (mean & Emean & Hmean).
  destruct (int_of_float_small K HK mean 3 Hmean ltac:(lia)) as (mid & Emid & Hmid).
  assert (Hstep : exists step,
             (if Py.flt 0.18 pct then Ok base_far
              else if Py.flt 0.07 pct
                   then (x <- Py.true_div (base_far + base_close) 2 ;; Py.int_of_float x)%res
                   else Ok base_close) = Ok step /\ small (K + 3) step).
  { destruct (Py.flt 0.18 pct); [eexists; split; [reflexivity | smalls K]|].
    destruct (Py.flt 0.07 pct); [|eexists; split; [reflexivity | smalls K]].
    rewrite Emean. cbn [bindR]. rewrite Emid. eexists; split; [reflexivity | assumption]. }
  destruct Hstep as (step & -> & Hstep). cbn [bindR].
  destruct (FAST_CONCESSION_AFTER <? r).
  - apply (scale_small K HK step FAST_CONCESSION_MULT 3 4 eq_refl Hstep);
      [const | lia].
  - eexists; split; [reflexivity | smalls K].
Qed.

End BuyerMagnitudes.

Section BuyerTotal.
Import YourBuyerAgent.
Context {interp : Interpreter}.
Variable K : Z.
Hypothesis HK : 10 <= K <= 1000.
Hypothesis Hpow : pow_on_progress interp.

(** The methods that read and update the [_state] return and keep the
    recorded extreme small. *)
Lemma buyer_format_total (pre : AgentState -> Prop) c :
  returns pre (_format_professional c) (fun _ st => pre st).
Proof using.
  unfold _format_professional.
  apply returns_bind_same; [apply returns_choice; discriminate | intros lead].
  apply returns_bind_same; [apply returns_choice; discriminate | intros tail].
  apply returns_ret; auto.
Qed.

Lemma buyer_init_total (pre : AgentState -> Prop) ctx :
  returns pre (_init_state ctx) (fun _ st => pre st).
Proof using.
  intros w st Hw Hst. unfold _init_state. rewrite Hw. exists tt, w, st. auto.
Qed.

Lemma buyer_record_total n a z :
  returns (buyer_seen_small n) (_record_concession a z) (fun _ st => buyer_seen_small n st).
Proof using. unfold _record_concession. apply returns_modify. auto. Qed.

Lemma buyer_adaptation_total n m :
  returns (buyer_seen_small n) (personality_adaptation m)
    (fun _ st => buyer_seen_small n st).
Proof using.
  unfold personality_adaptation.
  eapply returns_bind_modify with (pre' := buyer_seen_small n); [auto|].
  apply returns_ret; auto.
Qed.

Lemma buyer_concession_total (pre : AgentState -> Prop) z :
  returns pre (_seller_made_concession z) (fun _ st => pre st).
Proof using.
  unfold _seller_made_concession. rstep. rstep; [rstep|].
  destruct (py_index_last (seller_history st)) as (last & E); [assumption|].
  apply (returns_bind_lift _ _ last _ _ E). rstep; rstep.
Qed.

Lemma buyer_update_total obs :
  small K obs ->
  returns (buyer_state_small K) (_update_seller_estimates obs)
    (fun _ st => buyer_seen_small K st).
Proof using HK.
  intros Hobs. unfold _update_seller_estimates.
  eapply returns_bind_modify with (pre' := buyer_state_small K).
  { intros st [H1 H2]. split; assumption. }
  eapply returns_bind_modify with (pre' := buyer_state_small K).
  { intros st [H1 H2]. split; [|assumption]. cbn [min_seller_seen].
    intros v Hv. destruct (min_seller_seen st) as [m|] eqn:Em.
    - injection Hv as <-. specialize (H1 m eq_refl). smalls K.
    - injection Hv as <-. assumption. }
  destruct (scale_small K HK obs 0.85 0 1 eq_refl (proj1 (small_K0 K obs) Hobs)
              ltac:(const) ltac:(lia)) as (rough & E & Hrough).
  apply (returns_bind_lift _ _ rough _ _ E).
  rstep.
  assert (Hest : exists new_est,
            returns (buyer_state_small K)
              match seller_min_est st with
              | None => ret rough
              | Some est =>
                  lift (a <- Py.float_mul_int EST_DECAY est ;;
                        b <- Py.float_mul_int (Py.fsub 1 EST_DECAY) rough ;;
                        Py.int_of_float (Py.fadd a b))%res
              end
              (fun a st => a = new_est /\ buyer_state_small K st)).
  { destruct (seller_min_est st) as [est|] eqn:Eest.
    - destruct H as [_ Hest]. specialize (Hest est Eest).
      destruct (float_mul_int_small K HK est EST_DECAY 0 1 eq_refl
                  (proj1 (small_K0 K est) Hest) ltac:(const) ltac:(lia))
        as (a & Ea & Ha).
      destruct (float_mul_int_small K HK rough (Py.fsub 1 EST_DECAY) 1 2 eq_refl
                  Hrough ltac:(const) ltac:(lia)) as (b & Eb & Hb).
      assert (Hsum : fin (K + 3) (Py.fadd a b)).
      { replace (K + 3) with ((K + 2) + 1) by lia.
        apply fadd_fin; [eapply fin_K_mono; [eassumption | lia] | assumption | lia]. }
      destruct (int_of_float_small K HK _ 3 Hsum ltac:(lia)) as (v & Ev & _).
      exists v. eapply returns_lift; [rewrite Ea; cbn [bindR]; rewrite Eb; cbn [bindR]; exact Ev|].
      auto.
    - exists rough. apply returns_ret. auto. }
  destruct Hest as (new_est & Hest).
  eapply returns_bind; [exact Hest|]. intros a. cbv beta.
  apply returns_modify. intros st' [_ [H1 _]]. exact H1.
Qed.

Lemma buyer_closing_total ctx :
  returns (buyer_seen_small K) (_closing_target_from_estimate ctx)
    (fun ct st => buyer_seen_small K st /\ opt_small (K + 2) ct).
Proof using HK.
  unfold _closing_target_from_estimate. rstep.
  destruct (truthy (min_seller_seen st)) as [seen|] eqn:Eseen.
  - assert (Hseen : small (K + 0) seen).
    { apply (proj1 (small_K0 K seen)). apply H. unfold truthy in Eseen.
      destruct (min_seller_seen st) as [[| |]|]; congruence. }
    destruct (scale_small K HK seen 0.98 0 1 eq_refl Hseen ltac:(const) ltac:(lia))
      as (emf & E1 & Hemf).
    apply (returns_bind_lift _ _ emf _ _ E1).
    destruct (scale_small K HK emf MIN_SELLER_MARGIN 1 2 eq_refl Hemf ltac:(const) ltac:(lia))
      as (target & E2 & Htarget).
    apply (returns_bind_lift _ _ target _ _ E2).
    apply returns_ret. intros st' Hst'. split; [assumption|].
    intros v Hv. injection Hv as <-. unfold MIN_STEP. smalls K.
  - apply returns_ret. intros st' Hst'. split; [assumption|]. intros v Hv. discriminate Hv.
Qed.


Lemma buyer_last_offer_small ctx opening :
  context_small K ctx -> small (K + 1) opening ->
  exists last_my,
    small (K + 1) last_my /\
    forall pre : AgentState -> Prop,
      returns pre
        (if is_empty (your_offers ctx) then ret opening
         else lift (py_index (your_offers ctx) (-1)))
        (fun a st => a = last_my /\ pre st).
Proof using HK.
  intros (_ & _ & Hoffers) Ho.
  destruct (is_empty (your_offers ctx)) eqn:Ee.
  - exists opening. split; [assumption|]. intros pre. apply returns_ret. auto.
  - destruct (py_index_last _ Ee) as (x & Ex). exists x. split.
    + apply py_index_in in Ex. rewrite Forall_forall in Hoffers.
      specialize (Hoffers x Ex). smalls K.
    + intros pre. eapply returns_lift; [exact Ex | auto].
Qed.

Ltac accept_branch :=
  apply returns_bind_same; [apply buyer_format_total | intros ?];
  apply returns_ret; intros; cbn [fst]; auto.

(** The buyer's call, from an agent that has a [_state]. *)
Theorem buyer_respond_total ctx p m :
  context_small K ctx -> opt_small K p ->
  (p = None -> opt_small K (_extract_price m)) ->
  returns (buyer_state_small K) (respond_to_seller_offer ctx p m)
    (fun d _ => valid_status d).
Proof using HK Hpow.
  intros Hctx Hp Hm. unfold respond_to_seller_offer, valid_status.
  apply returns_bind_same; [apply buyer_init_total | intros _].
  eapply returns_bind with (mid := fun _ st => buyer_seen_small K st).
  { assert (Hobs : opt_small K (match p with Some p => Some p | None => _extract_price m end))
      by (destruct p; [assumption | apply Hm; reflexivity]).
    remember (match p with Some p => Some p | None => _extract_price m end) as observed
      eqn:Eobserved.
    clear Eobserved.
    destruct (truthy observed) as [obs|] eqn:Eobs.
    - assert (small K obs).
      { apply Hobs. unfold truthy in Eobs. destruct observed as [[| |]|]; congruence. }
      rstep.
      apply returns_bind_same.
      { destruct (is_empty _); [apply returns_ret; auto | apply buyer_concession_total]. }
      intros seller_conc.
      eapply returns_bind; [apply buyer_update_total; assumption |]. intros ?. cbv beta.
      unfold if_some.
      destruct (truthy seller_conc) as [c|];
        [destruct (0 <? c); [apply buyer_record_total|] |]; apply returns_ret; auto.
    - apply returns_ret. intros st [H1 _]. exact H1. }
  intros ?. cbv beta.
  apply returns_bind_same; [apply buyer_adaptation_total | intros tone_adapt].
  cbv zeta.
  destruct (buyer_opening_small K HK ctx Hctx) as (opening & Eo & Ho).
  apply (returns_bind_lift _ _ opening _ _ Eo).
  destruct (buyer_walkaway_small K HK ctx Hctx) as (walkaway & Ew & Hw).
  apply (returns_bind_lift _ _ walkaway _ _ Ew).
  destruct (buyer_last_offer_small ctx opening Hctx Ho) as (last_my & Hlast & Rlast).
  eapply returns_bind; [apply Rlast |]. intros ?. cbv beta.
  apply returns_pure. intros ->. clear Rlast.
  destruct Hctx as (Hb & Hmk & Hoffers).
  destruct (scale_small K HK (your_budget ctx) (Py.fsub 1 SAVINGS_THRESHOLD) 0 1 eq_refl
              (proj1 (small_K0 K _) Hb) ltac:(const) ltac:(lia))
    as (interview_threshold & Et & Ht).
  apply (returns_bind_lift _ _ interview_threshold _ _ Et).
  destruct (scale_small K HK (base_market_price (product ctx)) 0.82 0 1 eq_refl
              (proj1 (small_K0 K _) Hmk) ltac:(const) ltac:(lia))
    as (market_floor_proxy & Ep & Hproxy).
  apply (returns_bind_lift _ _ market_floor_proxy _ _ Ep).
  apply returns_if_some; [intros p0 _; accept_branch|].
  apply returns_if_some; [intros p0 _; accept_branch|].
  eapply returns_bind; [apply buyer_closing_total |].
  intros closing_target. cbv beta. apply returns_weaken with
    (pre := fun st => opt_small (K + 2) closing_target /\ buyer_seen_small K st)
    (post := fun (d : DealStatus * Z * str) (_ : AgentState) =>
               fst (fst d) = ONGOING \/ fst (fst d) = ACCEPTED);
    [| intros st [? ?]; split; assumption | auto].
  apply returns_pure. intros Hct.
  destruct (9 <=? current_round ctx) eqn:Eround.
  { apply returns_if_some; [intros p0 _; accept_branch|].
    rstep.
    destruct (buyer_reciprocity_ok (len (of_buyer (concessions st)))) as (demand & Ed).
    apply (returns_bind_lift _ _ demand _ _ Ed). accept_branch. }
  apply Z.leb_gt in Eround.
  destruct (buyer_dynamic_target_ok K HK Hpow (Z.max 1 (Z.min 10 (current_round ctx)))
              opening walkaway ltac:(lia) Ho Hw) as (target & Etarget).
  apply (returns_bind_lift _ _ target _ _ Etarget).
  apply returns_if_some; [intros p0 _; accept_branch|].
  destruct p as [seller_price|].
  2:{ destruct (scale_small K HK last_my 1.08 1 2 eq_refl Hlast ltac:(const) ltac:(lia))
        as (bumped & Eb & _).
      apply (returns_bind_lift _ _ bumped _ _ Eb). accept_branch. }
  specialize (Hp seller_price eq_refl).
  assert (Hgap : small (K + 2) (Z.max 0 (seller_price - last_my))) by smalls K.
  destruct (buyer_gap_step_small K HK (base_market_price (product ctx))
              (Z.max 1 (Z.min 10 (current_round ctx))) _ last_my Hmk Hgap)
    as (step & Estep & Hstep).
  apply (returns_bind_lift _ _ step _ _ Estep).
  apply returns_bind_same.
  { match goal with |- returns _ (match ?t with _ => _ end) _ =>
      destruct t as [anchor|] eqn:Eanchor end.
    - assert (Hanchor : small (K + 3) (anchor - last_my)).
      { apply truthy_some in Eanchor.
        destruct (truthy _) as [ct'|] eqn:Ect in Eanchor; [|discriminate Eanchor].
        apply truthy_some in Ect.
        destruct closing_target as [ct|]; [|discriminate Ect].
        specialize (Hct ct eq_refl).
        injection Ect as <-. injection Eanchor as <-. smalls K. }
      destruct (scale_small K HK _ 0.5 3 4 eq_refl Hanchor ltac:(const) ltac:(lia))
        as (half & Eh & _).
      apply (returns_bind_lift _ _ half _ _ Eh). apply returns_ret; auto.
    - destruct (int_mul_float_small K HK _ 0.45 2 3 eq_refl Hgap ltac:(const) ltac:(lia))
        as (x & Ex & Hx).
      destruct (int_max_int_float_small K HK step x 4 Hstep
                  ltac:(eapply fin_K_mono; [eassumption | lia]) ltac:(lia))
        as (far & Efar & _).
      eapply returns_bind_lift; [rewrite Ex; cbn [bindR]; exact Efar|].
      apply returns_ret; auto. }
  intros proposed.
  apply returns_bind_same.
  { destruct (_ <? _); [apply buyer_record_total | apply returns_ret; auto]. }
  intros _. rstep.
  destruct (buyer_reciprocity_ok (len (of_buyer (concessions st)))) as (demand & Ed).
  apply returns_bind_same.
  { destruct (_ <? _); [|apply returns_ret; auto].
    apply (returns_bind_lift _ _ demand _ _ Ed). apply returns_ret; auto. }
  intros reciprocity_text.
  apply returns_bind_same.
  { destruct tone_adapt; [apply returns_ret; auto|].
    apply (returns_bind_lift _ _ demand _ _ Ed). apply returns_ret; auto. }
  intros content. accept_branch.
Qed.

End BuyerTotal.

(** *** The seller's call returns *)

Section SellerTotal.
Import YourSellerAgent.
Context {interp : Interpreter}.
Variable K : Z.
Hypothesis HK : 10 <= K <= 1000.
Hypothesis Hpow : pow_on_progress interp.

(** The pricing helpers return, and what they return is small. *)
Lemma seller_opening_small ctx :
  context_small K ctx -> exists v, _opening_offer_number ctx = Ok v /\ small (K + 1) v.
Proof using HK.
  intros (_ & Hm & _). unfold _opening_offer_number.
  apply small_K0 in Hm.
  destruct (scale_small K HK _ AGG_OPEN_RATIO 0 1 eq_refl Hm ltac:(const) ltac:(lia))
    as (a & -> & Ha).
  destruct (scale_small K HK _ MARKET_OPEN_RATIO 0 1 eq_refl Hm ltac:(const) ltac:(lia))
    as (b & -> & Hb').
  cbn [bindR]. eexists. split; [reflexivity|]. smalls K.
Qed.

Lemma seller_floor_small ctx :
  context_small K ctx -> exists v, _walkaway_floor ctx = Ok v /\ small (K + 1) v.
Proof using HK.
  intros (_ & Hm & _). unfold _walkaway_floor.
  apply small_K0 in Hm.
  apply (scale_small K HK _ WALKAWAY_RATIO 0 1 eq_refl Hm); [const | lia].
Qed.

Lemma seller_dynamic_target_ok r o f :
  1 <= r <= 8 -> small (K + 1) o -> small (K + 1) f ->
  exists v, dynamic_target r o f = Ok v.
Proof using HK Hpow.
  intros Hr Ho Hf. unfold dynamic_target.
  destruct (progress_ok r Hr) as (x & Ex). rewrite Ex. cbn [bindR].
  pose proof (Hpow r x Hr Ex) as Hp.
  assert (Hd : small (K + 2) (o - f)) by smalls K.
  unfold Py.int_mul_float, Py.int_sub_float.
  destruct (float_of_int_small K HK _ 2 Hd ltac:(lia)) as (d & -> & Hfd). cbn [bindR].
  destruct (float_of_int_small K HK _ 1 Ho ltac:(lia)) as (fo & -> & Hfo). cbn [bindR].
  assert (Hprod : fin (K + 2) (Py.fmul d (fpow x 0.9))).
  { replace (K + 2) with ((K + 2) + 0) by lia. apply fmul_fin; (assumption || lia). }
  assert (Hsum : fin (K + 3) (Py.fsub fo (Py.fmul d (fpow x 0.9)))).
  { replace (K + 3) with ((K + 2) + 1) by lia.
    apply fsub_fin; [eapply fin_K_mono; [eassumption | lia] | assumption | lia]. }
  destruct (int_of_float_small K HK _ 3 Hsum ltac:(lia)) as (v & -> & _).
  eexists. reflexivity.
Qed.

Lemma seller_counter_step_small market r :
  small K market -> exists v, counter_step market r = Ok v /\ small (K + 2) v.
Proof using HK.
  intros Hm. unfold counter_step. apply small_K0 in Hm.
  destruct (int_mul_float_small K HK market 0.05 0 1 eq_refl Hm ltac:(const) ltac:(lia))
    as (x1 & -> & Hx1). cbn [bindR].
  destruct (int_max_int_float_small K HK MIN_STEP x1 1 ltac:(unfold MIN_STEP; smalls K)
              Hx1 ltac:(lia)) as (step & -> & Hstep). cbn [bindR].
  destruct (FAST_CONCESSION_AFTER <? r).
  - apply (scale_small K HK step FAST_CONCESSION_MULT 1 2 eq_refl Hstep); [const | lia].
  - eexists; split; [reflexivity | smalls K].
Qed.

(** The methods that read and update the [_state] return and keep the
    recorded extreme small. *)
Lemma seller_format_total (pre : AgentState -> Prop) c :
  returns pre (_format_professional c) (fun _ st => pre st).
Proof using.
  unfold _format_professional.
  apply returns_bind_same; [apply returns_choice; discriminate | intros lead].
  apply returns_bind_same; [apply returns_choice; discriminate | intros tail].
  apply returns_ret; auto.
Qed.

Lemma seller_init_total (pre : AgentState -> Prop) ctx :
  returns pre (_init_state ctx) (fun _ st => pre st).
Proof using.
  intros w st Hw Hst. unfold _init_state. rewrite Hw. exists tt, w, st. auto.
Qed.

Lemma seller_record_total n a z :
  returns (seller_seen_small n) (_record_concession a z)
    (fun _ st => seller_seen_small n st).
Proof using. unfold _record_concession. apply returns_modify. auto. Qed.

Lemma seller_adaptation_total n m :
  returns (seller_seen_small n) (personality_adaptation m)
    (fun _ st => seller_seen_small n st).
Proof using.
  unfold personality_adaptation.
  eapply returns_bind_modify with (pre' := seller_seen_small n); [auto|].
  apply returns_ret; auto.
Qed.

Lemma seller_concession_total (pre : AgentState -> Prop) z :
  returns pre (_buyer_made_concession z) (fun _ st => pre st).
Proof using.
  unfold _buyer_made_concession. rstep. rstep; [rstep|].
  destruct (py_index_last (buyer_history st)) as (last & E); [assumption|].
  apply (returns_bind_lift _ _ last _ _ E). rstep; rstep.
Qed.

Lemma seller_update_total obs :
  small K obs ->
  returns (seller_state_small K) (_update_buyer_estimates obs)
    (fun _ st => seller_seen_small K st).
Proof using HK.
  intros Hobs. unfold _update_buyer_estimates.
  eapply returns_bind_modify with (pre' := seller_state_small K).
  { intros st [H1 H2]. split; assumption. }
  eapply returns_bind_modify with (pre' := seller_state_small K).
  { intros st [H1 H2]. split; [|assumption]. cbn [max_buyer_seen].
    intros v Hv. destruct (max_buyer_seen st) as [m|] eqn:Em.
    - injection Hv as <-. specialize (H1 m eq_refl). smalls K.
    - injection Hv as <-. assumption. }
  destruct (scale_small K HK obs 1.10 0 1 eq_refl (proj1 (small_K0 K obs) Hobs)
              ltac:(const) ltac:(lia)) as (rough & E & Hrough).
  apply (returns_bind_lift _ _ rough _ _ E).
  rstep.
  assert (Hest : exists new_est,
            returns (seller_state_small K)
              match buyer_max_est st with
              | None => ret rough
              | Some est =>
                  lift (a <- Py.float_mul_int EST_DECAY est ;;
                        b <- Py.float_mul_int (Py.fsub 1 EST_DECAY) rough ;;
                        Py.int_of_float (Py.fadd a b))%res
              end
              (fun a st => a = new_est /\ seller_state_small K st)).
  { destruct (buyer_max_est st) as [est|] eqn:Eest.
    - destruct H as [_ Hest]. specialize (Hest est Eest).
      destruct (float_mul_int_small K HK est EST_DECAY 0 1 eq_refl
                  (proj1 (small_K0 K est) Hest) ltac:(const) ltac:(lia))
        as (a & Ea & Ha).
      destruct (float_mul_int_small K HK rough (Py.fsub 1 EST_DECAY) 1 2 eq_refl
                  Hrough ltac:(const) ltac:(lia)) as (b & Eb & Hb).
      assert (Hsum : fin (K + 3) (Py.fadd a b)).
      { replace (K + 3) with ((K + 2) + 1) by lia.
        apply fadd_fin; [eapply fin_K_mono; [eassumption | lia] | assumption | lia]. }
      destruct (int_of_float_small K HK _ 3 Hsum ltac:(lia)) as (v & Ev & _).
      exists v. eapply returns_lift; [rewrite Ea; cbn [bindR]; rewrite Eb; cbn [bindR]; exact Ev|].
      auto.
    - exists rough. apply returns_ret. auto. }
  destruct Hest as (new_est & Hest).
  eapply returns_bind; [exact Hest|]. intros a. cbv beta.
  apply returns_modify. intros st' [_ [H1 _]]. exact H1.
Qed.

Lemma seller_closing_total (pre : AgentState -> Prop) ctx :
  (forall st, pre st -> seller_seen_small K st) ->
  returns pre (_closing_target_from_estimate ctx) (fun _ st => pre st).
Proof using HK.
  intros Hpre. unfold _closing_target_from_estimate. rstep.
  destruct (truthy (max_buyer_seen st)) as [seen|] eqn:Eseen.
  - assert (Hseen : small (K + 0) seen).
    { apply (proj1 (small_K0 K seen)). apply (Hpre st H). apply truthy_some. exact Eseen. }
    destruct (scale_small K HK seen 1.02 0 1 eq_refl Hseen ltac:(const) ltac:(lia))
      as (cap & E1 & Hcap).
    apply (returns_bind_lift _ _ cap _ _ E1).
    apply returns_ret. auto.
  - apply returns_ret. auto.
Qed.

Lemma seller_last_offer_small ctx opening :
  context_small K ctx -> small (K + 1) opening ->
  exists last_my,
    small (K + 1) last_my /\
    forall pre : AgentState -> Prop,
      returns pre
        (if is_empty (your_offers ctx) then ret opening
         else lift (py_index (your_offers ctx) (-1)))
        (fun a st => a = last_my /\ pre st).
Proof using HK.
  intros (_ & _ & Hoffers) Ho.
  destruct (is_empty (your_offers ctx)) eqn:Ee.
  - exists opening. split; [assumption|]. intros pre. apply returns_ret. auto.
  - destruct (py_index_last _ Ee) as (x & Ex). exists x. split.
    + apply py_index_in in Ex. rewrite Forall_forall in Hoffers.
      specialize (Hoffers x Ex). smalls K.
    + intros pre. eapply returns_lift; [exact Ex | auto].
Qed.

Ltac seller_branch :=
  apply returns_bind_same; [apply seller_format_total | intros ?];
  apply returns_ret; intros; cbn [fst]; auto.

(** The seller's call, from an agent that has a [_state]. *)
Theorem seller_respond_total ctx p m :
  context_small K ctx -> opt_small K p ->
  returns (seller_state_small K) (respond_to_seller_offer ctx p m)
    (fun d _ => valid_status d).
Proof using HK Hpow.
  intros Hctx Hp. unfold respond_to_seller_offer, valid_status.
  apply returns_bind_same; [apply seller_init_total | intros _].
  eapply returns_bind with (mid := fun _ st => seller_seen_small K st).
  { destruct (truthy p) as [obs|] eqn:Eobs.
    - assert (small K obs) by (apply Hp, truthy_some, Eobs).
      rstep.
      apply returns_bind_same.
      { destruct (is_empty _); [apply returns_ret; auto | apply seller_concession_total]. }
      intros buyer_conc.
      eapply returns_bind; [apply seller_update_total; assumption |]. intros ?. cbv beta.
      unfold if_some.
      destruct (truthy buyer_conc) as [c|];
        [destruct (0 <? c); [apply seller_record_total|] |]; apply returns_ret; auto.
    - apply returns_ret. intros st [H1 _]. exact H1. }
  intros ?. cbv beta.
  apply returns_bind_same; [apply seller_adaptation_total | intros tone_adapt].
  cbv zeta.
  destruct (seller_opening_small ctx Hctx) as (opening & Eo & Ho).
  apply (returns_bind_lift _ _ opening _ _ Eo).
  destruct (seller_floor_small ctx Hctx) as (floor & Ef & Hf).
  apply (returns_bind_lift _ _ floor _ _ Ef).
  destruct (seller_last_offer_small ctx opening Hctx Ho) as (last_my & Hlast & Rlast).
  eapply returns_bind; [apply Rlast |]. intros ?. cbv beta.
  apply returns_pure. intros ->. clear Rlast.
  destruct Hctx as (Hb & Hmk & Hoffers).
  apply returns_bind_same; [apply seller_closing_total; auto | intros closing_target].
  destruct (9 <=? current_round ctx) eqn:Eround.
  { apply returns_if_some; [intros p0 _; seller_branch|].
    rstep.
    destruct (seller_reciprocity_ok (len (of_seller (concessions st)))) as (demand & Ed).
    apply (returns_bind_lift _ _ demand _ _ Ed). seller_branch. }
  apply Z.leb_gt in Eround.
  destruct (seller_dynamic_target_ok (Z.max 1 (Z.min 10 (current_round ctx)))
              opening floor ltac:(lia) Ho Hf) as (target & Etarget).
  apply (returns_bind_lift _ _ target _ _ Etarget).
  apply returns_if_some; [intros p0 _; seller_branch|].
  destruct (seller_counter_step_small (base_market_price (product ctx))
              (Z.max 1 (Z.min 10 (current_round ctx))) Hmk) as (step & Estep & Hstep).
  apply (returns_bind_lift _ _ step _ _ Estep).
  apply returns_bind_same.
  { destruct (_ <? _); [apply seller_record_total | apply returns_ret; auto]. }
  intros _. rstep.
  destruct (seller_reciprocity_ok (len (of_seller (concessions st)))) as (demand & Ed).
  apply returns_bind_same.
  { destruct (_ <? _); [|apply returns_ret; auto].
    apply (returns_bind_lift _ _ demand _ _ Ed). apply returns_ret; auto. }
  intros reciprocity_text.
  apply returns_bind_same.
  { destruct tone_adapt; [apply returns_ret; auto|].
    apply (returns_bind_lift _ _ demand _ _ Ed). apply returns_ret; auto. }
  intros content. seller_branch.
Qed.

End SellerTotal.

(** *** From any agent, with or without a [_state] *)

(** The tabulated [pow] is as the calls need it. *)
Lemma cpython_pow_on_progress : pow_on_progress cpython.
Proof.
  intros r x Hr.
  assert (r = 1 \/ r = 2 \/ r = 3 \/ r = 4 \/ r = 5 \/ r = 6 \/ r = 7 \/ r = 8) as H by lia.
  repeat (destruct H as [-> | H]); try subst r;
    intros E; vm_compute in E; injection E as <-; const.
Qed.

Section NewAgent.
Context {interp : Interpreter}.

(** The first call on an agent is the call on an agent with a fresh
    [_state]. *)
Lemma buyer_respond_new_agent ctx p m (w : world YourBuyerAgent.AgentState) :
  self_state w = None ->
  YourBuyerAgent.respond_to_seller_offer ctx p m w
  = YourBuyerAgent.respond_to_seller_offer ctx p m
      (World (Some YourBuyerAgent.fresh_state) (random w)).
Proof.
  intros Hw. unfold YourBuyerAgent.respond_to_seller_offer.
  unfold bind at 1. unfold YourBuyerAgent._init_state at 1. rewrite Hw.
  symmetry. unfold bind at 1. unfold YourBuyerAgent._init_state at 1.
  reflexivity.
Qed.

Lemma seller_respond_new_agent ctx p m (w : world YourSellerAgent.AgentState) :
  self_state w = None ->
  YourSellerAgent.respond_to_seller_offer ctx p m w
  = YourSellerAgent.respond_to_seller_offer ctx p m
      (World (Some YourSellerAgent.fresh_state) (random w)).
Proof.
  intros Hw. unfold YourSellerAgent.respond_to_seller_offer.
  unfold bind at 1. unfold YourSellerAgent._init_state at 1. rewrite Hw.
  symmetry. unfold bind at 1. unfold YourSellerAgent._init_state at 1.
  reflexivity.
Qed.

Lemma buyer_call_total ctx p m (w : world YourBuyerAgent.AgentState) :
  pow_on_progress interp ->
  context_small 1000 ctx -> opt_small 1000 p ->
  (p = None -> opt_small 1000 (YourBuyerAgent._extract_price m)) ->
  (forall st, self_state w = Some st -> buyer_state_small 1000 st) ->
  exists d w', YourBuyerAgent.respond_to_seller_offer ctx p m w = (Ok d, w') /\
               valid_status d.
Proof.
  intros Hpow Hctx Hp Hm Hst.
  pose proof (buyer_respond_total 1000 ltac:(lia) Hpow ctx p m Hctx Hp Hm) as R.
  destruct (self_state w) as [st|] eqn:Hw.
  - destruct (R w st Hw (Hst st eq_refl)) as (d & w' & st' & E & _ & Hd). eauto.
  - rewrite (buyer_respond_new_agent ctx p m w Hw).
    destruct (R (World (Some YourBuyerAgent.fresh_state) (random w))
                YourBuyerAgent.fresh_state eq_refl)
      as (d & w' & st' & E & _ & Hd); [|eauto].
    split; intros v Hv; discriminate Hv.
Qed.

Lemma seller_call_total ctx p m (w : world YourSellerAgent.AgentState) :
  pow_on_progress interp ->
  context_small 1000 ctx -> opt_small 1000 p ->
  (forall st, self_state w = Some st -> seller_state_small 1000 st) ->
  exists d w', YourSellerAgent.respond_to_seller_offer ctx p m w = (Ok d, w') /\
               valid_status d.
Proof.
  intros Hpow Hctx Hp Hst.
  pose proof (seller_respond_total 1000 ltac:(lia) Hpow ctx p m Hctx Hp) as R.
  destruct (self_state w) as [st|] eqn:Hw.
  - destruct (R w st Hw (Hst st eq_refl)) as (d & w' & st' & E & _ & Hd). eauto.
  - rewrite (seller_respond_new_agent ctx p m w Hw).
    destruct (R (World (Some YourSellerAgent.fresh_state) (random w))
                YourSellerAgent.fresh_state eq_refl)
      as (d & w' & st' & E & _ & Hd); [|eauto].
    split; intros v Hv; discriminate Hv.
Qed.

End NewAgent.

(** [small 1000] of a given integer, by evaluation. *)
Lemma small_1000_dec z : (- 2 ^ 1000 <=? z) && (z <=? 2 ^ 1000) = true -> small 1000 z.
Proof.
  intros H. apply andb_prop in H. destruct H as [H1 H2].
  apply Z.leb_le in H1, H2. split; assumption.
Qed.

(** * The claims *)

(** ** C1: prices within the hard constraints *)

Section Claims.
Context {interp : Interpreter}.

Lemma buyer_format_returns c (w : world YourBuyerAgent.AgentState) :
  exists out w',
    YourBuyerAgent._format_professional c w = (Ok out, w') /\
    self_state w' = self_state w.
Proof.
  unfold YourBuyerAgent._format_professional, bind, random_choice, ret, next_draw.
  cbn [random self_state List.length].
  set (seq1 := [lit "For clarity:"; lit "Let's be direct:"; lit "To be efficient:";
                lit "Straightforwardly:"]).
  set (seq2 := [lit "Please confirm."; lit "I expect a prompt response.";
                lit "Proceed accordingly."; lit "This suits my thresholds."]).
  destruct (nth_error seq1 (draws (random w) (cursor (random w)) mod 4)%nat) eqn:E1.
  2:{ apply nth_error_None in E1. change (List.length seq1) with 4%nat in E1.
      pose proof (Nat.mod_upper_bound (draws (random w) (cursor (random w))) 4
                    ltac:(discriminate)). lia. }
  cbn [random self_state draws cursor].
  destruct (nth_error seq2 (draws (random w) (S (cursor (random w))) mod 4)%nat) eqn:E2.
  2:{ apply nth_error_None in E2. change (List.length seq2) with 4%nat in E2.
      pose proof (Nat.mod_upper_bound (draws (random w) (S (cursor (random w)))) 4
                    ltac:(discriminate)). lia. }
  eexists _, _. split; reflexivity.
Qed.

(** C1: with a budget of 500 and a market price of 1000 the buyer's opening
    offer is 1000, above the budget: the floor at [MIN_STEP] is applied
    after the cap at the budget.  The call returns, whatever the agent's
    state and the generator. *)
Theorem C1_buyer_opening_exceeds_small_budget (w : world YourBuyerAgent.AgentState) :
  match YourBuyerAgent.generate_opening_offer (context_of (alphonso 1000) 500 1 []) w with
  | (Ok om, _) =>
      fst om = 1000 /\ your_budget (context_of (alphonso 1000) 500 1 []) < fst om
  | (Raise e, _) => False
  end.
Proof.
  unfold YourBuyerAgent.generate_opening_offer.
  assert (Ho : YourBuyerAgent._opening_offer_number (context_of (alphonso 1000) 500 1 [])
               = Ok 1000) by (vm_compute; reflexivity).
  rewrite Ho. unfold bind at 1.
  destruct (buyer_init_has_state (context_of (alphonso 1000) 500 1 []) w)
    as [w1 [st [-> Hst]]].
  unfold bind at 1, lift. unfold bind at 1.
  unfold YourBuyerAgent._record_concession, modify_state. rewrite Hst.
  unfold bind.
  match goal with
  | |- context [YourBuyerAgent._format_professional ?c ?w0] =>
      destruct (buyer_format_returns c w0) as [out [w2 [-> _]]]
  end.
  cbn [ret fst snd your_budget context_of]. split; [reflexivity | lia].
Qed.

End Claims.

(** ** C2: acceptance at the thresholds *)

(** C2, as stated, fails: in a finalizing round with a market price of 1
    the seller's floor is 0, the buyer's price 0 is at the floor, and yet
    the seller does not accept it but answers with a last shot of 1. *)
Lemma C2_seller_declines_price_zero :
  YourSellerAgent._walkaway_floor (context_of (alphonso 1) 0 9 [1]) = Ok 0 /\
  (0 <=? 0) = true /\
  decision (YourSellerAgent.respond_to_seller_offer (I := cpython)
              (context_of (alphonso 1) 0 9 [1]) (Some 0) None (new_agent rng0))
  = Ok (ONGOING, 1).
Proof. vm_compute. repeat split; reflexivity. Qed.

(** C2, amended: when the integers of the call are within the doubles, at
    most [2 ^ 1000] in absolute value, a present counterpart price that
    meets one of the buyer's acceptance thresholds, and a present
    counterpart price other than 0 that meets the seller's, is accepted:
    the call returns ACCEPTED and that price. *)
Theorem C2_threshold_prices_are_accepted (interp : Interpreter)
    (ctx : NegotiationContext) (p : Z) (m : option str)
    (wb : world YourBuyerAgent.AgentState) (ws : world YourSellerAgent.AgentState) :
  pow_on_progress interp ->
  context_small 1000 ctx ->
  small 1000 p ->
  (forall st, self_state wb = Some st -> buyer_state_small 1000 st) ->
  (forall st, self_state ws = Some st -> seller_state_small 1000 st) ->
  (buyer_threshold_met ctx p ->
   exists out w',
     YourBuyerAgent.respond_to_seller_offer ctx (Some p) m wb = (Ok (ACCEPTED, p, out), w')) /\
  (p <> 0 -> seller_threshold_met ctx p ->
   exists out w',
     YourSellerAgent.respond_to_seller_offer ctx (Some p) m ws = (Ok (ACCEPTED, p, out), w')).
Proof.
  intros Hpow Hctx Hp Hb Hs.
  assert (Hp' : opt_small 1000 (Some p)) by (intros v H; injection H as <-; exact Hp).
  split.
  - intros Hmet.
    destruct (buyer_call_total ctx (Some p) m wb Hpow Hctx Hp' ltac:(discriminate) Hb)
      as (d & w' & E & _).
    pose proof (buyer_accepts ctx p m wb Hmet) as H. rewrite E in H.
    destruct d as [[s q] out]. cbn [fst] in H. injection H as -> ->. eauto.
  - intros Hne Hmet.
    destruct (seller_call_total ctx (Some p) m ws Hpow Hctx Hp' Hs) as (d & w' & E & _).
    pose proof (seller_accepts ctx p m ws Hne Hmet) as H. rewrite E in H.
    destruct d as [[s q] out]. cbn [fst] in H. injection H as -> ->. eauto.
Qed.

Lemma C2_threshold_prices_are_accepted_witness :
  (exists out w',
     YourBuyerAgent.respond_to_seller_offer (I := cpython)
       (context_of (alphonso 180000) 216000 2 [129600]) (Some 149040) None
       (new_agent rng0) = (Ok (ACCEPTED, 149040, out), w')) /\
  (exists out w',
     YourSellerAgent.respond_to_seller_offer (I := cpython)
       (context_of (alphonso 180000) 0 9 [162000]) (Some 170000) None
       (new_agent rng0) = (Ok (ACCEPTED, 170000, out), w')).
Proof.
  split.
  - refine (proj1 (C2_threshold_prices_are_accepted cpython
                     (context_of (alphonso 180000) 216000 2 [129600]) 149040 None
                     (new_agent rng0) (new_agent rng0) cpython_pow_on_progress _ _ _ _) _).
    + repeat split; try (apply small_1000_dec; vm_compute; reflexivity).
      repeat constructor; apply small_1000_dec; vm_compute; reflexivity.
    + apply small_1000_dec; vm_compute; reflexivity.
    + intros st H. discriminate H.
    + intros st H. discriminate H.
    + exists 129600, 172800, 194400, 147600.
      repeat split; try (vm_compute; reflexivity).
      left. vm_compute. discriminate.
  - refine (proj2 (C2_threshold_prices_are_accepted cpython
                     (context_of (alphonso 180000) 0 9 [162000]) 170000 None
                     (new_agent rng0) (new_agent rng0) cpython_pow_on_progress _ _ _ _) _ _).
    + repeat split; try (apply small_1000_dec; vm_compute; reflexivity).
      repeat constructor; apply small_1000_dec; vm_compute; reflexivity.
    + apply small_1000_dec; vm_compute; reflexivity.
    + intros st H. discriminate H.
    + intros st H. discriminate H.
    + discriminate.
    + exists 225000, 162000.
      repeat split; try (vm_compute; reflexivity).
      left. split; vm_compute; discriminate.
Defined.

(** ** C3: monotone offer sequences *)

(** C3, as stated, fails on both sides: in the third scenario of the
    source's own test of the second product (budget 135000, seller minimum
    123000) the buyer's last shot of round 9 is below its offer of round 8;
    and against a buyer who keeps offering 100000 the seller's last shot of
    round 9, the market price, is above its offer of round 8. *)
Lemma C3_last_shot_against_direction :
  offers_of (fst (run_negotiation_test (agent := buyer_agent (I := cpython))
                    kesar 135000 123000 (new_agent rng0)))
  = [105300; 118947; 125770; 131770; 135000; 135000; 135000; 135000; 132594; 132594] /\
  nondecreasing
    [105300; 118947; 125770; 131770; 135000; 135000; 135000; 135000; 132594; 132594]
  = false /\
  fst (session (agent := seller_agent (I := cpython)) (alphonso 180000) 0
         (repeat (Some 100000, None) 8) (new_agent rng0))
  = [225000; 216000; 207000; 198000; 189000; 175500; 162000; 162000; 180000] /\
  nonincreasing [225000; 216000; 207000; 198000; 189000; 175500; 162000; 162000; 180000]
  = false.
Proof. vm_compute. repeat split; reflexivity. Qed.

(** C3, amended: in every session the buyer's counter-offers of rounds 1
    to 8 do not decrease, when every counterpart price is present and the
    opening offer is within the walk-away cap; the seller's counter-offers
    of rounds 1 to 8 do not increase, when its opening offer is not below
    its floor.  Nothing is said of the last shots of the rounds from 9
    on. *)
Theorem C3_counters_monotone_before_finalizing (interp : Interpreter)
    (p : Product) (budget : Z) (script : list (option Z * option str))
    (wb : world YourBuyerAgent.AgentState) (ws : world YourSellerAgent.AgentState) :
  (forall opening walkaway,
     YourBuyerAgent._opening_offer_number (context_of p budget 1 []) = Ok opening ->
     YourBuyerAgent._walkaway_cap (context_of p budget 1 []) = Ok walkaway ->
     opening <= walkaway ->
     Forall (fun turn : option Z * option str => fst turn <> None) script ->
     nondecreasing
       (firstn 8 (fst (session (agent := buyer_agent) p budget script wb))) = true) /\
  (forall opening floor,
     YourSellerAgent._opening_offer_number (context_of p budget 1 []) = Ok opening ->
     YourSellerAgent._walkaway_floor (context_of p budget 1 []) = Ok floor ->
     floor <= opening ->
     nonincreasing
       (firstn 8 (fst (session (agent := seller_agent) p budget script ws))) = true).
Proof.
  split.
  - intros opening walkaway.
    exact (buyer_session_nondecreasing p budget script wb opening walkaway).
  - intros opening floor.
    exact (seller_session_nonincreasing p budget script ws opening floor).
Qed.

Lemma C3_counters_monotone_before_finalizing_witness :
  nondecreasing
    (firstn 8 (fst (session (agent := buyer_agent (I := cpython)) (alphonso 180000)
                      162000 (repeat (Some 200000, None) 9) (new_agent rng0)))) = true /\
  nonincreasing
    (firstn 8 (fst (session (agent := seller_agent (I := cpython)) (alphonso 180000)
                      162000 (repeat (Some 100000, None) 9) (new_agent rng0)))) = true.
Proof.
  destruct (C3_counters_monotone_before_finalizing cpython (alphonso 180000) 162000
              (repeat (Some 200000, None) 9) (new_agent rng0) (new_agent rng0))
    as [Hb _].
  destruct (C3_counters_monotone_before_finalizing cpython (alphonso 180000) 162000
              (repeat (Some 100000, None) 9) (new_agent rng0) (new_agent rng0))
    as [_ Hs].
  split.
  - apply (Hb 126360 162000); try (vm_compute; reflexivity).
    + vm_compute. discriminate.
    + repeat constructor; discriminate.
  - apply (Hs 225000 162000); try (vm_compute; reflexivity).
    vm_compute. discriminate.
Defined.

(** ** C4: the closing target *)



(** ** C5: the step of the counter *)




(** ** C6: the life of the [_state] *)



(** ** C7: the decision of every call *)

(** C7, as stated, fails: with a market price of 10^400 the product
    [market * 0.72] of the buyer's opening, and [market * 1.25] of the
    seller's, cannot convert the integer to a float, and the call raises
    [OverflowError]. *)
Lemma C7_huge_market_price_raises :
  let ctx := context_of (alphonso (10 ^ 400)) 216000 2 [129600] in
  decision (YourBuyerAgent.respond_to_seller_offer (I := cpython) ctx
              (Some 270000) None (new_agent rng0)) = Raise OverflowError /\
  decision (YourSellerAgent.respond_to_seller_offer (I := cpython) ctx
              (Some 270000) None (new_agent rng0)) = Raise OverflowError.
Proof. vm_compute. split; reflexivity. Qed.

(** C7, amended: when the integers of a call are within the doubles, at
    most [2 ^ 1000] in absolute value (the budget, the market price, the
    earlier offers, the counterpart price if present, a price read from
    the message, and the extreme and the estimate the agent recorded), and
    the interpreter's [pow] is finite and at most 1 at the progress of a
    normal round, the call of either agent raises nothing and returns a
    decision whose status is ONGOING or ACCEPTED, whatever the message,
    the round, the histories and the generator, from an agent with or
    without a [_state].  (Outside that range the call raises nothing but
    the exception of a conversion: [buyer_respond_status],
    [seller_respond_status].) *)
Theorem C7_call_in_range_returns_decision (interp : Interpreter)
    (ctx : NegotiationContext) (p : option Z) (m : option str)
    (wb : world YourBuyerAgent.AgentState) (ws : world YourSellerAgent.AgentState) :
  pow_on_progress interp ->
  context_small 1000 ctx ->
  opt_small 1000 p ->
  (p = None -> opt_small 1000 (YourBuyerAgent._extract_price m)) ->
  (forall st, self_state wb = Some st -> buyer_state_small 1000 st) ->
  (forall st, self_state ws = Some st -> seller_state_small 1000 st) ->
  (exists d w', YourBuyerAgent.respond_to_seller_offer ctx p m wb = (Ok d, w') /\
                valid_status d) /\
  (exists d w', YourSellerAgent.respond_to_seller_offer ctx p m ws = (Ok d, w') /\
                valid_status d).
Proof.
  intros Hpow Hctx Hp Hm Hb Hs. split.
  - apply buyer_call_total; assumption.
  - apply seller_call_total; assumption.
Qed.

Lemma C7_call_in_range_returns_decision_witness :
  let ctx := context_of (alphonso 180000) 216000 2 [129600] in
  let message := Some (lit "I can do " ++ [rupee] ++ lit "243,000 for you!") in
  (exists d w', YourBuyerAgent.respond_to_seller_offer (I := cpython) ctx None message
                  (new_agent rng0) = (Ok d, w') /\ valid_status d) /\
  (exists d w', YourSellerAgent.respond_to_seller_offer (I := cpython) ctx None message
                  (new_agent rng0) = (Ok d, w') /\ valid_status d).
Proof.
  apply (C7_call_in_range_returns_decision cpython
           (context_of (alphonso 180000) 216000 2 [129600]) None
           (Some (lit "I can do " ++ [rupee] ++ lit "243,000 for you!"))
           (new_agent rng0) (new_agent rng0)).
  - exact cpython_pow_on_progress.
  - repeat split; try (apply small_1000_dec; vm_compute; reflexivity).
    repeat constructor; apply small_1000_dec; vm_compute; reflexivity.
  - intros v H. discriminate H.
  - intros _ v H. vm_compute in H. injection H as <-.
    apply small_1000_dec. vm_compute. reflexivity.
  - intros st H. discriminate H.
  - intros st H. discriminate H.
Defined.

(** ** C8: the index of the reciprocity demand *)


(** ** C9: the phrase decoration *)

Lemma indep_decision {S : Type} (m : M S (DealStatus * Z * str)) (st : option S)
    (g1 g2 : rng) :
  indep same_decision m ->
  decision (m (World st g1)) = decision (m (World st g2)) /\
  state_after (m (World st g1)) = state_after (m (World st g2)).
Proof.
  intros H. specialize (H (World st g1) (World st g2) eq_refl).
  unfold decision, state_after.
  destruct (m (World st g1)) as [[[[s1 q1] o1]|e1] w1],
           (m (World st g2)) as [[[[s2 q2] o2]|e2] w2];
    cbn [fst snd] in *; try contradiction.
  - destruct H as [Hd Hw]. unfold same_decision in Hd. cbn [fst] in Hd.
    injection Hd as -> ->. split; [reflexivity | exact Hw].
  - destruct H as [-> Hw]. split; [reflexivity | exact Hw].
Qed.

(** C9: two runs of a per-round call on the same inputs and the same
    [_state], whatever the draws of [random.choice] in each, return the
    same status and the same price, or raise the same exception, and leave
    the same [_state]: only the message can differ. *)
Theorem C9_phrase_choice_changes_message_only (interp : Interpreter)
    (ctx : NegotiationContext) (p : option Z) (m : option str)
    (stb : option YourBuyerAgent.AgentState) (sts : option YourSellerAgent.AgentState)
    (g1 g2 : rng) :
  (decision (YourBuyerAgent.respond_to_seller_offer ctx p m (World stb g1))
   = decision (YourBuyerAgent.respond_to_seller_offer ctx p m (World stb g2)) /\
   state_after (YourBuyerAgent.respond_to_seller_offer ctx p m (World stb g1))
   = state_after (YourBuyerAgent.respond_to_seller_offer ctx p m (World stb g2))) /\
  (decision (YourSellerAgent.respond_to_seller_offer ctx p m (World sts g1))
   = decision (YourSellerAgent.respond_to_seller_offer ctx p m (World sts g2)) /\
   state_after (YourSellerAgent.respond_to_seller_offer ctx p m (World sts g1))
   = state_after (YourSellerAgent.respond_to_seller_offer ctx p m (World sts g2))).
Proof.
  split; apply indep_decision.
  - apply buyer_respond_indep.
  - apply seller_respond_indep.
Qed.

(** ** C10: a price of 0 *)

(** C10: for the seller a buyer price of 0 is an absent price, the two
    calls being the same computation: nothing is accepted, and the
    history, the running maximum, the decayed estimate and the buyer's
    recorded concessions are left as they were; for the buyer the closing
    target is absent when the running minimum is 0. *)
Theorem C10_price_zero_is_absent (interp : Interpreter)
    (ctx : NegotiationContext) (m : option str)
    (w : world YourSellerAgent.AgentState) (st : YourSellerAgent.AgentState)
    (g : rng) (history : list Z) (est : option Z) (ledger : Ledger) (tone : Tone) :
  YourSellerAgent.respond_to_seller_offer ctx (Some 0) m w
  = YourSellerAgent.respond_to_seller_offer ctx None m w /\
  match YourSellerAgent.respond_to_seller_offer ctx (Some 0) m (World (Some st) g) with
  | (Ok d, w') =>
      fst (fst d) = ONGOING /\
      exists st', self_state w' = Some st' /\
        YourSellerAgent.buyer_history st' = YourSellerAgent.buyer_history st /\
        YourSellerAgent.max_buyer_seen st' = YourSellerAgent.max_buyer_seen st /\
        YourSellerAgent.buyer_max_est st' = YourSellerAgent.buyer_max_est st /\
        of_buyer (YourSellerAgent.concessions st')
        = of_buyer (YourSellerAgent.concessions st)
  | (Raise e, _) => arith e
  end /\
  fst (YourBuyerAgent._closing_target_from_estimate ctx
         (World (Some {| YourBuyerAgent.seller_history := history;
                         YourBuyerAgent.min_seller_seen := Some 0;
                         YourBuyerAgent.seller_min_est := est;
                         YourBuyerAgent.concessions := ledger;
                         YourBuyerAgent.last_seller_tone := tone |}) g))
  = Ok None.
Proof.
  split; [reflexivity |]. split; [| reflexivity].
  change (YourSellerAgent.respond_to_seller_offer ctx (Some 0) m (World (Some st) g))
    with (YourSellerAgent.respond_to_seller_offer ctx None m (World (Some st) g)).
  apply seller_absent_price_keeps_estimates.
Qed.
